(** * Highlight extraction: [extract_highlight] of highlight_extractor.py

    A shallow embedding of the highlight window pipeline: the frame
    difference loop, the conversion of non-silent millisecond intervals
    to frame ranges, the composite score array, the sliding-window
    selection with [np.argmax], and the handling of the temporary audio
    file, of warnings and of errors around them.

    Conventions.
    - Python integers are [Z]; Python lists and one-dimensional numpy
      arrays are [list]; slices follow Python's index normalisation.
    - The per-frame scores are float64 in the source but only ever hold
      integers (sums of uint8 differences and +1 increments); they are
      modelled as [Z], which is exact below 2^53.
    - Durations and the frame rate are floats in the source; a float is
      the rational it denotes, in [Q], and [int(x)] is truncation toward
      zero.  The float products and quotients that are truncated to frame
      numbers (lines 43, 44, 83 and 88) round their exact result to
      binary64, [Float.fl]: to the nearest number with a significand of 53
      bits, ties to even.  The exponent range is not bounded, so overflow
      and subnormal numbers are left out, and an [int] operand is taken
      as converted exactly, which it is below 2^53.
    - The library calls (file system, moviepy, pydub, cv2, streamlit) are
      the external world: their answers are the fields of [Env], their
      visible effects are the fields of [State].  A library call that
      raises is an answer too; the source has no handler for it, so the
      exception leaves [extract_highlight].

    Further parts embed the page around it ([show_highlight_extractor]),
    the key moments and the reel of emotion.py, the silence test, the
    duplicate filter and the scene loop of sceneoptimizer.py, and the
    emotion detection of emotion_processor.py, each with the answers of
    its library calls as arguments. *)

From Stdlib Require Import ZArith QArith Qabs Lia Lqa String.
From stdpp Require Import base tactics option list list_numbers sorting gmap.

Local Open Scope Z_scope.

(** ** Python and numpy primitives *)

Module Py.

  (** [int(x)] on a float: truncation toward zero. *)
Definition int (x : Q) : Z := Z.quot (Qnum x) (Zpos (Qden x)).

  (** [round(x)] on a float: nearest integer, ties to even. *)
Definition round (x : Q) : Z :=
  let n := Qnum x in
  let d := Zpos (Qden x) in
  let f := n / d in
  let r := 2 * (n mod d) in
  if r <? d then f
  else if d <? r then f + 1
  else if Z.even f then f else f + 1.

  (** [x < y] on floats. *)
Definition ltb (x y : Q) : bool := negb (Qle_bool y x).

  (** [range(n)]. *)
Definition range (n : Z) : list Z := seqZ 0 n.

  (** [len(l)]. *)
Definition len {A} (l : list A) : Z := Z.of_nat (length l).

  (** Normalisation of one bound of a slice of a sequence of length [n]:
      a negative bound counts from the end, and the result is clipped to
      [0 .. n]. *)
Definition slice_bound (n i : Z) : Z :=
  if i <? 0 then Z.max 0 (i + n) else Z.min i n.

  (** [l[start:stop]]. *)
Definition slice {A} (l : list A) (start stop : Z) : list A :=
  let a := slice_bound (len l) start in
  let b := slice_bound (len l) stop in
  take (Z.to_nat (b - a)) (drop (Z.to_nat a) l).

  (** [enumerate(l)]. *)
Definition enumerate {A} (l : list A) : list (nat * A) :=
  imap (fun i x => (i, x)) l.

End Py.

(** ** Binary64 rounding *)

Module Float.

  (** [2 ** e] for an integer [e] of either sign. *)
Definition pow2 (e : Z) : Q :=
  match e with
  | Z0 => 1
  | Zpos p => inject_Z (2 ^ Zpos p)
  | Zneg p => 1 # (2 ^ p)
  end.

  (** [floor(log2(x))] for [x > 0]. *)
Definition ilog2 (x : Q) : Z :=
  let k := Z.log2 (Qnum x) - Z.log2 (Zpos (Qden x)) in
  if Qle_bool (pow2 k) x then k else k - 1.

  (** The nearest number with a significand of 53 bits, ties to the even
      significand, for [x > 0]. *)
Definition nearest (x : Q) : Q :=
  let e := ilog2 x - 52 in
  (inject_Z (Py.round (x / pow2 e)) * pow2 e)%Q.

  (** Rounding of an exact result to binary64: [fl(-x) = -fl(x)]. *)
Definition fl (x : Q) : Q :=
  match Qnum x with
  | Z0 => 0
  | Zpos _ => nearest x
  | Zneg _ => - nearest (- x)
  end.

  (** [x * y] on floats, an [int] operand converted, and [a / b] on two
      ints with a divisor that is not zero: the exact result, rounded. *)
Definition mul (x y : Q) : Q := fl (x * y).
Definition div (x y : Q) : Q := fl (x / y).

End Float.

Module Np.

  (** [np.sum(a)]. *)
Definition sum (a : list Z) : Z := foldr Z.add 0 a.

  (** [a[start:stop] += v], in place. *)
Definition add_slice (a : list Z) (start stop v : Z) : list Z :=
  let lo := Py.slice_bound (Py.len a) start in
  let hi := Py.slice_bound (Py.len a) stop in
  imap (fun i x => if bool_decide (lo <= Z.of_nat i < hi) then x + v else x) a.

  (** [a[i] += v] for an index known to be in range. *)
Definition add_at (a : list Z) (i : nat) (v : Z) : list Z :=
  alter (Z.add v) i a.

  (** The scan of [np.argmax]: index of the first occurrence of the
      largest value seen. *)
Fixpoint argmax_from (best_i : nat) (best : Z) (i : nat) (a : list Z) : nat :=
  match a with
  | [] => best_i
  | x :: a' =>
      if best <? x then argmax_from i x (S i) a'
      else argmax_from best_i best (S i) a'
  end.

  (** [np.argmax(a)]; [None] stands for the [ValueError] numpy raises on
      an empty sequence. *)
Definition argmax (a : list Z) : option nat :=
  match a with
  | [] => None
  | x :: a' => Some (argmax_from 0 x 1 a')
  end.

  (** [cv2.absdiff] of two grayscale frames of the same shape, flattened. *)
Definition absdiff (f g : list Z) : list Z :=
  zip_with (fun x y => Z.abs (x - y)) f g.

End Np.

(** ** The pure stages of [extract_highlight] *)

(** A grayscale frame, flattened: pixel intensities. *)
Definition Frame := list Z.

(** Lines 52-64: the read loop.  [frames] are the frames for which
    [cap.read()] answers [ret = True], already converted to grayscale. *)
Fixpoint read_loop (prev_frame : option Frame) (frame_diffs : list Z)
    (frames : list Frame) : list Z :=
  match frames with
  | [] => frame_diffs
  | gray_frame :: rest =>
      let frame_diffs :=
        match prev_frame with
        | Some prev => frame_diffs ++ [Np.sum (Np.absdiff gray_frame prev)]
        | None => frame_diffs
        end in
      read_loop (Some gray_frame) frame_diffs rest
  end.

(** Line 44: one endpoint, [int(ms / 1000 * fps)]: the quotient of two
    ints is a float, its product with [fps] is a float, and each is
    rounded. *)
Definition to_frame (ms fps : Z) : Z :=
  Py.int (Float.mul (Float.div (inject_Z ms) (inject_Z 1000)) (inject_Z fps)).

(** The endpoint as the specification words it, [round(ms / 1000 * fps)],
    on the exact product. *)
Definition to_frame_rounded (ms fps : Z) : Z :=
  Py.round (inject_Z ms / inject_Z 1000 * inject_Z fps)%Q.

Definition nonsilent_to_frames (fps : Z) (nonsilent_ranges : list (Z * Z))
    : list (Z * Z) :=
  (fun r => (to_frame r.1 fps, to_frame r.2 fps)) <$> nonsilent_ranges.

(** Lines 75-76. *)
Definition add_ranges (frame_scores : list Z) (ranges : list (Z * Z)) : list Z :=
  foldl (fun fs r => Np.add_slice fs r.1 r.2 1) frame_scores ranges.

(** Lines 78-80. *)
Definition add_diffs (frame_scores : list Z) (frame_diffs : list Z) : list Z :=
  foldl (fun fs p =>
           if bool_decide (Z.of_nat p.1 < Py.len fs) then Np.add_at fs p.1 p.2
           else fs)
        frame_scores (Py.enumerate frame_diffs).

(** Lines 74-80 on an array of [total_frames] zeros. *)
Definition build_scores (total_frames : nat) (ranges : list (Z * Z))
    (frame_diffs : list Z) : list Z :=
  add_diffs (add_ranges (replicate total_frames 0) ranges) frame_diffs.

(** Line 90: the list handed to [np.argmax]. *)
Definition window_sums (frame_scores : list Z) (highlight_frames : Z) : list Z :=
  (fun i => Np.sum (Py.slice frame_scores i (i + highlight_frames)))
    <$> Py.range (Py.len frame_scores - highlight_frames).

(** Lines 89-91: the best-window selector. *)
Definition select_start (frame_scores : list Z) (highlight_frames : Z) : option nat :=
  Np.argmax (window_sums frame_scores highlight_frames).

(** The sum of the window of length [L] starting at [i]. *)
Definition window_sum (frame_scores : list Z) (L : Z) (i : nat) : Z :=
  Np.sum (Py.slice frame_scores (Z.of_nat i) (Z.of_nat i + L)).

(** ** The external world and the effects of the pipeline *)

(** What [VideoFileClip(video_path)] exposes. *)
Record Clip := { duration : Q; fps : Q }.

(** The answers of the library calls made by one invocation. *)
Record Env := {
  video_path : string;           (* the argument of extract_highlight *)
  isfile : bool;                 (* os.path.isfile(video_path) *)
  VideoFileClip : option Clip;   (* None: the constructor raises *)
  write_audiofile : bool;        (* false: video.audio.write_audiofile raises *)
  detect_nonsilent : option (list (Z * Z));
                                 (* the millisecond intervals; None:
                                    AudioSegment.from_file or
                                    detect_nonsilent raises *)
  isOpened : bool;               (* cap.isOpened() *)
  frames : list Frame;           (* grayscale frames read before ret = False *)
  write_videofile : bool;        (* false: subclip or write_videofile raises *)
  gettempdir : string            (* tempfile.gettempdir() *)
}.

(** Errors leaving [extract_highlight].  All but the first and the last
    two are [ValueError]s in the source, told apart by their message. *)
Inductive Exn :=
  | FileNotFoundError (path : string)  (* line 16 *)
  | CouldNotProcess                    (* line 21 *)
  | NoAudioActivity                    (* line 40 *)
  | UnableToOpen (path : string)       (* line 50 *)
  | NoSceneChanges                     (* line 71 *)
  | NegativeDimensions                 (* np.zeros of a negative length *)
  | ArgmaxEmpty                        (* np.argmax of an empty sequence *)
  | ZeroDivisionError
  | LibraryError.                      (* raised inside a library call *)

(** Calls of [st.warning]. *)
Inductive Warning :=
  | Exceeds (requested available : Q)  (* line 25 *)
  | Adjusted (highlight_duration : Q). (* lines 27 and 86 *)

(** Stages entered, recorded for statements about ordering. *)
Inductive Stage := Scoring | Selection | Extraction.

Record State := {
  temp_audio : bool;             (* the temporary .wav file exists *)
  warnings : list Warning;       (* shown so far, oldest first *)
  output : option (Q * Q);       (* highlight.mp4 written: the clip bounds *)
  stages : list Stage            (* entered so far, oldest first *)
}.

Definition initial : State :=
  {| temp_audio := false; warnings := []; output := None; stages := [] |}.

Inductive Outcome (A : Type) :=
  | Return (a : A)
  | Raise (e : Exn).
Arguments Return {A} a.
Arguments Raise {A} e.

(** Computations: state passing with exceptions. *)
Definition M (A : Type) : Type := State -> Outcome A * State.

#[global] Instance M_ret : MRet M := fun A a s => (Return a, s).
#[global] Instance M_bind : MBind M := fun A B f m s =>
  match m s with
  | (Return a, s') => f a s'
  | (Raise e, s') => (Raise e, s')
  end.

Definition raise {A} (e : Exn) : M A := fun s => (Raise e, s).

(** [try: body finally: cleanup]. *)
Definition try_finally {A} (body : M A) (cleanup : M unit) : M A := fun s =>
  let '(r, s1) := body s in
  match cleanup s1 with
  | (Return _, s2) => (r, s2)
  | (Raise e, s2) => (Raise e, s2)
  end.

Definition modify (f : State -> State) : M unit := fun s => (Return (), f s).

Definition st_warning (w : Warning) : M unit :=
  modify (fun s => {| temp_audio := temp_audio s; warnings := warnings s ++ [w];
                      output := output s; stages := stages s |}).

Definition enter (g : Stage) : M unit :=
  modify (fun s => {| temp_audio := temp_audio s; warnings := warnings s;
                      output := output s; stages := stages s ++ [g] |}).

(** [tempfile.NamedTemporaryFile(delete=False, suffix=".wav")]. *)
Definition NamedTemporaryFile : M unit :=
  modify (fun s => {| temp_audio := true; warnings := warnings s;
                      output := output s; stages := stages s |}).

(** [os.remove(audio_path)]. *)
Definition os_remove_audio (audio_path : string) : M unit := fun s =>
  if temp_audio s then
    (Return (), {| temp_audio := false; warnings := warnings s;
                   output := output s; stages := stages s |})
  else (Raise (FileNotFoundError audio_path), s).

(** A library call that either succeeds or raises. *)
Definition library_call (ok : bool) : M unit :=
  if ok then mret () else raise LibraryError.

(** Lines 97-98.  [start_frame] is a numpy integer, so the divisions by
    [fps] do not raise; [fps] is non-zero whenever this point is reached
    (a zero [fps] gives zero frames and the exit of line 71).  The two
    bounds are times, recorded as the exact quotients; the source hands
    their roundings to [subclip]. *)
Definition write_clip (env : Env) (t_start t_end : Q) : M unit :=
  library_call (write_videofile env);;
  modify (fun s => {| temp_audio := temp_audio s; warnings := warnings s;
                      output := Some (t_start, t_end); stages := stages s |}).

Definition np_zeros (n : Z) : M (list Z) :=
  if n <? 0 then raise NegativeDimensions else mret (replicate (Z.to_nat n) 0).

Definition np_argmax (a : list Z) : M nat :=
  match Np.argmax a with
  | Some i => mret i
  | None => raise ArgmaxEmpty
  end.

(** The name the system gave to the temporary file; only whether the
    file exists matters below. *)
Definition audio_path : string := "tmp.wav".

Definition output_path (env : Env) : string :=
  (gettempdir env ++ "/highlight.mp4")%string.

(** ** [extract_highlight] *)

(** Line 42: [fps = int(video.fps)]. *)
Definition fps_of (video : Clip) : Z := Py.int (fps video).

(** Line 43: [total_frames = int(video.duration * fps)], a float product. *)
Definition total_frames_of (video : Clip) : Z :=
  Py.int (Float.mul (duration video) (inject_Z (fps_of video))).

(** Lines 52-67: [frame_diffs] after the loop and the truncation. *)
Definition frame_diffs_of (env : Env) (video : Clip) : list Z :=
  Py.slice (read_loop None [] (frames env)) 0 (total_frames_of video).

(** Lines 83 and 88: [int(highlight_duration * fps)], a float product.
    A request given as an [int] is its value here; the product of two
    ints is exact in the source, and so is the rounded product below
    2^53. *)
Definition highlight_frames_of (highlight_duration : Q) (fps : Z) : Z :=
  Py.int (Float.mul highlight_duration (inject_Z fps)).

Definition extract_highlight (env : Env) (highlight_duration : Q) : M string :=
  (* 15-16 *)
  (if isfile env then mret () else raise (FileNotFoundError (video_path env)));;
  (* 18-21 *)
  video ← match VideoFileClip env with
           | Some v => mret v
           | None => raise CouldNotProcess
           end;
  (* 24-27 *)
  highlight_duration ←
    (if Py.ltb (duration video) highlight_duration then
       st_warning (Exceeds highlight_duration (duration video));;
       st_warning (Adjusted (duration video));;
       mret (duration video)
     else mret highlight_duration);
  (* 30-32 *)
  NamedTemporaryFile;;
  library_call (write_audiofile env);;
  (* 34-36 *)
  nonsilent_ranges ← match detect_nonsilent env with
                      | Some r => mret r
                      | None => raise LibraryError
                      end;
  (* 38-40 *)
  (if bool_decide (nonsilent_ranges = []) then
     os_remove_audio audio_path;; raise NoAudioActivity
   else mret ());;
  (* 42-44 *)
  let fps := fps_of video in
  let total_frames := total_frames_of video in
  let nonsilent_ranges_frames := nonsilent_to_frames fps nonsilent_ranges in
  (* 47-50 *)
  (if isOpened env then mret ()
   else os_remove_audio audio_path;; raise (UnableToOpen (video_path env)));;
  (* 52-67 *)
  let frame_diffs := frame_diffs_of env video in
  (* 69-71 *)
  (if bool_decide (frame_diffs = []) then
     os_remove_audio audio_path;; raise NoSceneChanges
   else mret ());;
  (* 74-80 *)
  enter Scoring;;
  frame_scores ← np_zeros total_frames;
  let frame_scores := add_ranges frame_scores nonsilent_ranges_frames in
  let frame_scores := add_diffs frame_scores frame_diffs in
  (* 83-86; the quotient of line 85 is recorded exactly: the branch is
     not taken for a frame rate that is not negative *)
  let highlight_frames := highlight_frames_of highlight_duration fps in
  highlight_duration ←
    (if Py.len frame_scores <? highlight_frames then
       (if fps =? 0 then raise ZeroDivisionError else mret ());;
       let highlight_duration := (inject_Z (Py.len frame_scores) / inject_Z fps)%Q in
       st_warning (Adjusted highlight_duration);;
       mret highlight_duration
     else mret highlight_duration);
  (* 88-92 *)
  let highlight_frames := highlight_frames_of highlight_duration fps in
  enter Selection;;
  start_frame ← np_argmax (window_sums frame_scores highlight_frames);
  let end_frame := Z.of_nat start_frame + highlight_frames in
  (* 95-102 *)
  let output_path := output_path env in
  try_finally
    (enter Extraction;;
     write_clip env (inject_Z (Z.of_nat start_frame) / inject_Z fps)%Q
                    (inject_Z end_frame / inject_Z fps)%Q)
    (os_remove_audio audio_path);;
  mret output_path.

(** ** Vocabulary of the statements *)

(** Number of ranges [(start, end)] with [start <= i < end]. *)
Definition covering (ranges : list (Z * Z)) (i : nat) : Z :=
  Py.len (filter (fun r => r.1 <= Z.of_nat i < r.2) ranges).

(** The score of index [i] as the specification words it: the magnitude
    of frame [i] against its predecessor (none for frame 0), read from an
    array whose first entry belongs to frame 1, plus one per covering
    range. *)
Definition spec_score (ranges : list (Z * Z)) (magnitudes : list Z) (i : nat) : Z :=
  match i with
  | O => 0
  | S j => default 0 (magnitudes !! j)
  end + covering ranges i.

(** The errors raised when the source cannot be opened (lines 16, 21, 50). *)
Definition source_unavailable (e : Exn) : bool :=
  match e with
  | FileNotFoundError _ | CouldNotProcess | UnableToOpen _ => true
  | _ => false
  end.

(** The errors raised for an empty signal (lines 40 and 71). *)
Definition no_signal (e : Exn) : bool :=
  match e with
  | NoAudioActivity | NoSceneChanges => true
  | _ => false
  end.

(** Concrete inputs: [n] identical one-pixel frames, and a video of
    duration [d] at [f] frames per second whose file exists, whose audio
    can be written and whose clip can be written. *)
Definition still (n : nat) : list Frame := replicate n [0].

Definition sample (d f : Q) (ranges : option (list (Z * Z))) (opened : bool)
    (fr : list Frame) : Env :=
  {| video_path := "clip.mp4"; isfile := true;
     VideoFileClip := Some {| duration := d; fps := f |};
     write_audiofile := true; detect_nonsilent := ranges;
     isOpened := opened; frames := fr;
     write_videofile := true; gettempdir := "/tmp" |}.

(** ** Further vocabulary *)

(** The exits with no [os.remove] on their way: an error raised by
    [np.zeros], by [np.argmax], by the division of line 85, or by a
    library call made before the [try] of line 96. *)
Definition unguarded_exit (o : Outcome string) (s' : State) : Prop :=
  match o with
  | Raise NegativeDimensions | Raise ArgmaxEmpty | Raise ZeroDivisionError => True
  | Raise LibraryError => Extraction ∉ stages s'
  | _ => False
  end.

(** What it takes for [extract_highlight] to return: every answer of the
    world is good, the request is not longer than the video, and the
    requested window is strictly shorter than the video in frames. *)
Definition returns_for (env : Env) (hd : Q) (v : Clip) (r : list (Z * Z)) : Prop :=
  isfile env = true /\ VideoFileClip env = Some v /\
  Py.ltb (duration v) hd = false /\
  write_audiofile env = true /\ detect_nonsilent env = Some r /\ r <> [] /\
  isOpened env = true /\ frame_diffs_of env v <> [] /\
  0 <= total_frames_of v /\
  highlight_frames_of hd (fps_of v) < total_frames_of v /\
  write_videofile env = true.

(** ** The caller: [show_highlight_extractor] (lines 104-129) *)

(** The same world asked about another path. *)
Definition with_video_path (env : Env) (path : string) : Env :=
  {| video_path := path; isfile := isfile env;
     VideoFileClip := VideoFileClip env;
     write_audiofile := write_audiofile env;
     detect_nonsilent := detect_nonsilent env;
     isOpened := isOpened env; frames := frames env;
     write_videofile := write_videofile env; gettempdir := gettempdir env |}.

(** What the user did on the page, and the directory [mkdtemp] made. *)
Record Page := {
  uploaded_file : option string;   (* the name of the uploaded file, if any *)
  number_input : Z;                (* the duration typed; the widget keeps it >= 1 *)
  button : bool;                   (* "Extract Highlight" pressed *)
  mkdtemp : string                 (* tempfile.mkdtemp() *)
}.

(** What the page itself shows; what [extract_highlight] shows through
    [st.warning] is in its own state. *)
Inductive Shown :=
  | Title                          (* line 105 *)
  | Intro                          (* line 106 *)
  | Video (path : string)          (* lines 115 and 123 *)
  | Success                        (* line 122 *)
  | Download (path : string)       (* lines 124-125 *)
  | ErrorMessage (e : Exn).        (* line 127 *)

Record Screen := {
  core : State;                    (* the effects of extract_highlight *)
  shown : list Shown;              (* oldest first *)
  temp_dir : bool                  (* the directory of the uploaded copy exists *)
}.

Definition blank : Screen := {| core := initial; shown := []; temp_dir := false |}.

Definition show (sc : Screen) (w : list Shown) : Screen :=
  {| core := core sc; shown := shown sc ++ w; temp_dir := temp_dir sc |}.

Definition show_highlight_extractor (env : Env) (page : Page) (sc : Screen) : Screen :=
  (* 105-106 *)
  let sc := show sc [Title; Intro] in
  (* 108-109 *)
  match uploaded_file page with
  | None => sc
  | Some name =>
      (* 110-113 *)
      let video_path := (mkdtemp page ++ "/" ++ name)%string in
      let sc := {| core := core sc; shown := shown sc; temp_dir := true |} in
      (* 115-117 *)
      let sc := show sc [Video video_path] in
      let highlight_duration := inject_Z (number_input page) in
      (* 119-127 *)
      let sc :=
        if button page then
          match extract_highlight (with_video_path env video_path)
                  highlight_duration (core sc) with
          | (Return output_path, s') =>
              {| core := s';
                 shown := shown sc ++ [Success; Video output_path; Download output_path];
                 temp_dir := temp_dir sc |}
          | (Raise e, s') =>
              {| core := s'; shown := shown sc ++ [ErrorMessage e];
                 temp_dir := temp_dir sc |}
          end
        else sc in
      (* 129 *)
      {| core := core sc; shown := shown sc; temp_dir := false |}
  end.

(** ** emotion.py: [analyze_footage] (lines 24-61),
       [generate_highlight_reel] (lines 63-108) *)

(** Times are floats in the source and exact rationals here.  The loops
    below only compare them, take maxima and minima, and add or halve a
    padding; the one float that is truncated to an integer is [fps * 1],
    which is exact. *)

Module Emotion.

  (** [max(a, b)] and [min(a, b)] on two floats. *)
Definition py_max (a b : Q) : Q := if Py.ltb a b then b else a.
Definition py_min (a b : Q) : Q := if Py.ltb b a then b else a.

  (** A key moment: the frame number and the labels of its emotions. *)
Record Moment := { frame : Z; labels : list string }.

  (** What the capture and the classifier answer: the frame rate, the
      frames read, each with the labels the classifier gives it ([None]
      when resizing or classifying the frame raises), and whether the
      model loads. *)
Record Capture := {
  CAP_PROP_FPS : Q;
  reads : list (option (list string));
  loads : bool
}.

  (** Lines 44-58: one turn of the loop on the frame read; [None] is the
      [ZeroDivisionError] of line 45. *)
Definition analyze_step (fps : Q) (st : list Moment * Z)
    (read : option (list string)) : option (list Moment * Z) :=
  let '(key_moments, frame_count) := st in
  let frame_count := frame_count + 1 in
  let rate := Py.int (fps * 1) in
  if rate =? 0 then None
  else if frame_count mod rate =? 0 then
    match read with
    | Some emotions =>
        Some (key_moments ++ [{| frame := frame_count; labels := emotions |}],
              frame_count)
    | None => Some (key_moments, frame_count)
    end
  else Some (key_moments, frame_count).

  (** Lines 24-61. *)
Definition analyze_footage (c : Capture) : option (list Moment) :=
  if loads c then
    fst <$> foldl (fun st read => st ≫= fun s => analyze_step (CAP_PROP_FPS c) s read)
                  (Some ([], 0)) (reads c)
  else Some [].

  (** Line 73. *)
Definition selected (selected_emotions : list string) (moment : Moment) : bool :=
  existsb (fun selected_emo => existsb (String.eqb selected_emo) (labels moment))
          selected_emotions.

  (** Lines 74-76. *)
Definition window (fps duration : Q) (moment : Moment) : Q * Q :=
  (py_max (inject_Z (frame moment) / fps - (5 # 2)) 0,
   py_min (inject_Z (frame moment) / fps + (5 # 2)) duration)%Q.

  (** The order of tuples of two floats. *)
Definition tuple_leb (a b : Q * Q) : bool :=
  Py.ltb a.1 b.1 || (Qeq_bool a.1 b.1 && Qle_bool a.2 b.2).

Definition tuple_le (a b : Q * Q) : Prop := tuple_leb a b = true.

#[global] Instance tuple_le_dec : RelDecision tuple_le.
Proof. intros a b. unfold tuple_le. apply _. Defined.

  (** [sorted(highlight_times)]. *)
Definition sorted (times : list (Q * Q)) : list (Q * Q) := merge_sort tuple_le times.

  (** Lines 81-84: one turn of the merging loop. *)
Definition merge_step (merged_times : list (Q * Q)) (iv : Q * Q) : list (Q * Q) :=
  match last merged_times with
  | Some l =>
      if Qle_bool iv.1 l.2
      then <[pred (length merged_times) := (l.1, py_max l.2 iv.2)]> merged_times
      else merged_times ++ [iv]
  | None => merged_times ++ [iv]
  end.

  (** Lines 79-84. *)
Definition merge_times (times : list (Q * Q)) : list (Q * Q) :=
  foldl merge_step [] (sorted times).

  (** Lines 94-97. *)
Definition pad (duration : Q) (iv : Q * Q) : Q * Q :=
  if Py.ltb (iv.2 - iv.1) 5 then
    let padding := ((5 - (iv.2 - iv.1)) / 2)%Q in
    (py_max (iv.1 - padding) 0, py_min (iv.2 + padding) duration)%Q
  else iv.

  (** What the libraries answer: the clip of [VideoFileClip(video_path)]
      ([None]: the constructor raises) and whether cutting, joining and
      writing the clips works. *)
Record Footage := { clip : option Clip; writes : bool }.

  (** Lines 63-108.  The value returned, and the bounds of the clips
      joined into the file written. *)
Definition generate_highlight_reel (w : Footage) (key_moments : list Moment)
    (selected_emotions : list string) (output_path : string)
    : option string * list (Q * Q) :=
  match clip w with
  | None => (None, [])
  | Some c =>
      let matching := List.filter (selected selected_emotions) key_moments in
      (* 74: a float division by zero raises *)
      if Qeq_bool (fps c) 0 && negb (bool_decide (matching = [])) then (None, [])
      else
        let highlight_times := window (fps c) (duration c) <$> matching in
        let merged_times := merge_times highlight_times in
        (* 87-89 *)
        if bool_decide (merged_times = []) then (None, [])
        else
          let highlight_clips := pad (duration c) <$> merged_times in
          (* 101-104 *)
          if writes w then (Some output_path, highlight_clips) else (None, [])
  end.

  (** Vocabulary of the statements about the merging loop. *)

Local Open Scope Q_scope.

(** Consecutive entries are apart: the earlier ends before the later starts. *)
Definition separated (l : list (Q * Q)) : Prop :=
  forall i a b, l !! i = Some a -> l !! S i = Some b -> a.2 < b.1.

(** The points of the closed intervals of a list. *)
Definition covers (l : list (Q * Q)) (x : Q) : Prop :=
  exists iv, iv ∈ l /\ iv.1 <= x <= iv.2.

(** The start of the last entry, if any, is not after [q]. *)
Definition last_starts_by (l : list (Q * Q)) (q : Q) : Prop :=
  forall x, last l = Some x -> x.1 <= q.

(** Bounds kept by the merging loop: starts not below [lo], ends not above [hi]. *)
Definition within (lo hi : Q) (iv : Q * Q) : Prop := lo <= iv.1 /\ iv.2 <= hi.

End Emotion.

(** ** sceneoptimizer.py: [is_scene_silent] (lines 19-34),
       [remove_repeated_files] (lines 42-71), [process_video] (lines 82-106) *)

(** Durations, decibel values and thresholds are floats in the source and
    exact rationals here; the code compares them, subtracts two durations
    and divides one count by another. *)

Module SceneOptimizer.

  (** Line 63: [abs(current_duration - previous_duration) > min_duration]. *)
Definition differs (min_duration current_duration previous_duration : Q) : bool :=
  Py.ltb min_duration (Qabs (current_duration - previous_duration)).

  (** The variables of the loop of lines 53-69, and the paths warned about. *)
Record Loop := {
  filtered_paths : list string;
  previous_duration : option Q;
  warned : list string
}.

  (** Lines 56-69: one turn.  [durations path] is the duration of the clip
      at [path], [None] when opening or reading it raises. *)
Definition remove_step (durations : string -> option Q) (min_duration : Q)
    (st : Loop) (video_path : string) : Loop :=
  match durations video_path with
  | Some current_duration =>
      let keep :=
        match previous_duration st with
        | None => true
        | Some previous => differs min_duration current_duration previous
        end in
      {| filtered_paths :=
           if keep then filtered_paths st ++ [video_path] else filtered_paths st;
         previous_duration := Some current_duration;
         warned := warned st |}
  | None =>
      {| filtered_paths := filtered_paths st;
         previous_duration := previous_duration st;
         warned := warned st ++ [video_path] |}
  end.

  (** Lines 42-71. *)
Definition remove_repeated_files (durations : string -> option Q)
    (video_paths : list string) (min_duration : Q) : Loop :=
  foldl (remove_step durations min_duration)
        {| filtered_paths := []; previous_duration := None; warned := [] |}
        video_paths.

  (** Lines 33-34 on the decibel values of line 32. *)
Definition is_scene_silent (db_energy : list Q) (silence_threshold : Q) : bool :=
  let below := List.filter (fun x => Py.ltb x silence_threshold) db_energy in
  let silent_portion := (inject_Z (Py.len below) / inject_Z (Py.len db_energy))%Q in
  Py.ltb (9 # 10) silent_portion.

  (** Vocabulary of the statements about [remove_repeated_files]. *)

  (** The clip at [p] opens and has a duration. *)
Definition opens (durations : string -> option Q) (p : string) : bool :=
  match durations p with Some _ => true | None => false end.

  (** Durations that drift: each differs from the one before by at most [m]. *)
Definition drifting (m : Q) (ds : list Q) : Prop :=
  forall i a b, ds !! i = Some a -> ds !! S i = Some b -> (Qabs (b - a) <= m)%Q.

  (** A file [temp_scene_<n>.wav], as the decibel values line 32 computes
      from it; [None] when the silence check raises on it. *)
Definition Wav := option (list Q).

  (** What lines 88-91 do for one scene: the scene has no audio track, or
      [subclip] or [write_audiofile] raises (leaving [partial] behind, if
      anything), or a file is written. *)
Inductive Audio :=
  | NoAudio
  | WriteRaises (partial : option Wav)
  | Writes (wav : Wav).

  (** The files [temp_scene_<n>.wav] of the working directory, by [n]. *)
Abbreviation Disk := (gmap nat Wav).

  (** Lines 37-39 after the [subclip] of line 88; [inl] when an exception
      leaves, with the files as they are then. *)
Definition extract_audio (a : Audio) (scene_audio_path : nat) (d : Disk)
    : Disk + Disk :=
  match a with
  | NoAudio => inr d
  | WriteRaises None => inl d
  | WriteRaises (Some wav) => inl (<[scene_audio_path := wav]> d)
  | Writes wav => inr (<[scene_audio_path := wav]> d)
  end.

  (** The variables of the loop of lines 87-97. *)
Record Scenes := {
  disk : Disk;
  processed_clips : list (Q * Q)
}.

  (** A turn of the loop goes on, or an exception leaves it. *)
Inductive Step :=
  | Next (st : Scenes)
  | Raised (d : Disk).

  (** Lines 88-97, over [enumerate(scenes)]. *)
Fixpoint scene_loop (audio : nat -> Audio) (silence_threshold : Q)
    (scenes : list (nat * (Q * Q))) (st : Scenes) : Step :=
  match scenes with
  | [] => Next st
  | (i, scene_clip) :: rest =>
      let scene_audio_path := S i in
      match extract_audio (audio i) scene_audio_path (disk st) with
      | inl d => Raised d
      | inr d =>
          match d !! scene_audio_path with
          | None =>
              scene_loop audio silence_threshold rest
                {| disk := d; processed_clips := processed_clips st |}
          | Some None => Raised d
          | Some (Some db_energy) =>
              scene_loop audio silence_threshold rest
                {| disk := delete scene_audio_path d;
                   processed_clips :=
                     if is_scene_silent db_energy silence_threshold
                     then processed_clips st
                     else processed_clips st ++ [scene_clip] |}
          end
      end
  end.

  (** The answers of the libraries [process_video] calls. *)
Record Video := {
  detect_scenes : option (list (Q * Q));
  VideoFileClip : bool;
  audio : nat -> Audio;
  write_videofile : bool
}.

  (** How a call ends: whether it raised, the temp files left, the scenes
      of the output written, and whether the error message was shown. *)
Record Exit := {
  raised : bool;
  files : Disk;
  written : option (list (Q * Q));
  error_shown : bool
}.

  (** Lines 82-106. *)
Definition process_video (v : Video) (d : Disk) (silence_threshold : Q) : Exit :=
  match detect_scenes v with
  | None =>
      {| raised := true; files := d; written := None; error_shown := false |}
  | Some scenes =>
      if VideoFileClip v then
        match scene_loop (audio v) silence_threshold (Py.enumerate scenes)
                {| disk := d; processed_clips := [] |} with
        | Raised d' =>
            {| raised := true; files := d'; written := None; error_shown := false |}
        | Next st =>
            match processed_clips st with
            | [] =>
                {| raised := false; files := disk st; written := None; error_shown := true |}
            | _ :: _ =>
                if write_videofile v then
                  {| raised := false; files := disk st;
                     written := Some (processed_clips st); error_shown := false |}
                else
                  {| raised := true; files := disk st; written := None; error_shown := false |}
            end
        end
      else
        {| raised := true; files := d; written := None; error_shown := false |}
  end.

  (** The file the silence check of scene [i] finds: the one just written,
      or one that was already there when the scene has no audio track. *)
Definition heard (d : Disk) (a : nat -> Audio) (i : nat) : option Wav :=
  match a i with
  | NoAudio => d !! S i
  | WriteRaises _ => None
  | Writes wav => Some wav
  end.

Definition audible (d : Disk) (a : nat -> Audio) (silence_threshold : Q)
    (i : nat) : bool :=
  match heard d a i with
  | Some (Some db_energy) => negb (is_scene_silent db_energy silence_threshold)
  | _ => false
  end.

  (** [enumerate(scenes)] from [j] on. *)
Definition numbered (j : nat) (l : list (Q * Q)) : list (nat * (Q * Q)) :=
  imap (fun i x => ((j + i)%nat, x)) l.

  (** The scenes of a numbered list that are audible. *)
Definition kept (d : Disk) (a : nat -> Audio) (thr : Q)
    (l : list (nat * (Q * Q))) : list (Q * Q) :=
  snd <$> List.filter (fun p => audible d a thr p.1) l.

End SceneOptimizer.

(** ** emotion_processor.py: [detect_emotion_from_image] (lines 25-38),
       [detect_emotion_from_video] (lines 40-58) *)

Module EmotionProcessor.

  (** [max(items, key=...)]: the first item whose key no later item
      exceeds; [None] where Python raises [ValueError] on no items. *)
Definition max_by {A K} (ltb : K -> K -> bool) (key : A -> K) (items : list A)
    : option A :=
  foldl (fun best item =>
           match best with
           | None => Some item
           | Some max_item =>
               if ltb (key max_item) (key item) then Some item else Some max_item
           end) None items.

  (** What [detector.detect_emotions(img)] answers: [None] when it raises,
      else the faces found, each with the items of its ['emotions'] dict
      in the dict's order. *)
Definition Detection := option (list (list (string * Q))).

  (** Lines 25-38. *)
Definition detect_emotion_from_image (result : Detection) : string :=
  match result with
  | Some (face :: _) =>
      match max_by Py.ltb snd face with
      | Some dominant => dominant.1
      | None => "neutral"
      end
  | _ => "neutral"
  end.

  (** Lines 44-54: one turn of the reading loop on the frame read. *)
Definition read_step (st : list string * nat) (frame : Detection) : list string * nat :=
  let '(emotions, frame_count) := st in
  (if (frame_count mod 10 =? 0)%nat
   then emotions ++ [detect_emotion_from_image frame]
   else emotions,
   S frame_count).

Definition sampled (frames : list Detection) : list string :=
  (foldl read_step ([], 0%nat) frames).1.

  (** [emotions.count(e)]. *)
Definition count (emotions : list string) (e : string) : nat :=
  length (List.filter (String.eqb e) emotions).

  (** Lines 40-58.  [frames] are the frames the capture delivers (none
      when it did not open) and [set_order] the order in which the set of
      line 57 is iterated.  [None]: [max] raises on no items. *)
Definition detect_emotion_from_video (set_order : list string -> list string)
    (frames : list Detection) : option string :=
  let emotions := sampled frames in
  match emotions with
  | [] => Some "neutral"%string
  | _ :: _ => max_by Nat.ltb (count emotions) (set_order emotions)
  end.

  (** [m] is the first item of largest key: the items before it have
      smaller keys, no item after it has a larger one. *)
Definition first_max {A K} (lt : K -> K -> Prop) (key : A -> K)
    (items : list A) (m : A) : Prop :=
  exists before after, items = before ++ m :: after /\
    Forall (fun x => lt (key x) (key m)) before /\
    Forall (fun x => ~ lt (key m) (key x)) after.

End EmotionProcessor.

(** * Properties *)

(** ** [np.argmax] *)

Section Argmax.

Local Ltac earlier Hfirst :=
  let j := fresh "j" in let z := fresh "z" in
  let Hj := fresh "Hj" in let Hz := fresh "Hz" in
  intros [|j] z Hj Hz; simpl in Hz;
  [ injection Hz as <-; lia
  | first [ apply (Hfirst j); [lia | done] | lia ] ].

(** The scan either keeps the incumbent, which then bounds the whole
    list, or moves to the first position holding the maximum. *)
Lemma argmax_from_spec (a : list Z) : forall best_i best i,
  (Np.argmax_from best_i best i a = best_i /\ Forall (fun x => x <= best) a) \/
  (exists k x, Np.argmax_from best_i best i a = (i + k)%nat /\
     a !! k = Some x /\ best < x /\
     Forall (fun y => y <= x) a /\
     (forall j y, (j < k)%nat -> a !! j = Some y -> y < x)).
Proof.
  induction a as [|x a IH]; intros best_i best i; simpl.
  - left. split; [reflexivity | constructor].
  - destruct (Z.ltb_spec best x) as [Hlt | Hge].
    + right.
      destruct (IH i x (S i)) as [[Hr Hall] | (k & y & Hr & Hk & Hxy & Hall & Hfirst)].
      * exists 0%nat, x. rewrite Hr.
        split_and!; [lia | done | lia | | intros j y Hj; lia].
        constructor; [lia | done].
      * exists (S k), y. rewrite Hr.
        split_and!; [lia | done | lia | | earlier Hfirst].
        constructor; [lia | done].
    + destruct (IH best_i best (S i)) as [[Hr Hall] | (k & y & Hr & Hk & Hxy & Hall & Hfirst)].
      * left. split; [done | constructor; done].
      * right. exists (S k), y. rewrite Hr.
        split_and!; [lia | done | lia | | earlier Hfirst].
        constructor; [lia | done].
Qed.

(** On a non-empty list [np.argmax] answers the lowest index holding the
    maximum. *)
Lemma argmax_spec (a : list Z) :
  a <> [] ->
  exists r m, Np.argmax a = Some r /\ a !! r = Some m /\
    Forall (fun y => y <= m) a /\
    (forall j y, (j < r)%nat -> a !! j = Some y -> y < m).
Proof.
  destruct a as [|x a]; [done | intros _]. simpl.
  destruct (argmax_from_spec a 0%nat x 1%nat)
    as [[Hr Hall] | (k & y & Hr & Hk & Hxy & Hall & Hfirst)].
  - exists 0%nat, x. rewrite Hr.
    split_and!; [done | done | | intros j y Hj; lia].
    constructor; [lia | done].
  - exists (S k), y. simpl in Hr. rewrite Hr.
    split_and!; [done | done | | earlier Hfirst].
    constructor; [lia | done].
Qed.

End Argmax.

(** ** The windows scanned by the selector *)

Lemma window_sums_length (fs : list Z) (L : Z) :
  length (window_sums fs L) = Z.to_nat (Py.len fs - L).
Proof. unfold window_sums, Py.range. by rewrite length_fmap, length_seqZ. Qed.

Lemma window_sums_lookup (fs : list Z) (L : Z) (j : nat) :
  Z.of_nat j < Py.len fs - L ->
  window_sums fs L !! j = Some (window_sum fs L j).
Proof.
  intros Hj. unfold window_sums, window_sum, Py.range.
  rewrite list_lookup_fmap.
  rewrite (lookup_seqZ_lt 0 (Py.len fs - L) j) by lia. reflexivity.
Qed.

(** For [L < N] the selector answers the lowest start among the starts
    [0 .. N-L-1] whose window sum is the largest among these. *)
Lemma select_start_spec (fs : list Z) (L : Z) :
  L < Py.len fs ->
  exists i, select_start fs L = Some i /\
    Z.of_nat i < Py.len fs - L /\
    (forall j, Z.of_nat j < Py.len fs - L -> window_sum fs L j <= window_sum fs L i) /\
    (forall j, (j < i)%nat -> window_sum fs L j < window_sum fs L i).
Proof.
  intros HL. unfold select_start.
  destruct (argmax_spec (window_sums fs L)) as (r & m & Hr & Hm & Hall & Hfirst).
  { intros Hnil. apply (f_equal length) in Hnil.
    rewrite window_sums_length in Hnil. simpl in Hnil. lia. }
  assert (Hlt : Z.of_nat r < Py.len fs - L).
  { apply lookup_lt_Some in Hm. rewrite window_sums_length in Hm. lia. }
  rewrite window_sums_lookup in Hm by done. injection Hm as <-.
  exists r. split_and!; [done | done | |].
  - intros j Hj. rewrite Forall_lookup in Hall.
    apply (Hall j). by apply window_sums_lookup.
  - intros j Hj. apply (Hfirst j); [done |].
    apply window_sums_lookup. lia.
Qed.

(** The start [N - L] of the last window is never answered. *)
Lemma select_start_never_last (fs : list Z) (L : Z) (i : nat) :
  select_start fs L = Some i -> Z.of_nat i < Py.len fs - L.
Proof.
  unfold select_start. intros Hsel.
  destruct (argmax_spec (window_sums fs L)) as (r & m & Hr & Hm & _).
  { intros Hnil. by rewrite Hnil in Hsel. }
  rewrite Hr in Hsel. injection Hsel as ->.
  apply lookup_lt_Some in Hm. rewrite window_sums_length in Hm. lia.
Qed.

(** For [N <= L] there is no window to scan and [np.argmax] raises. *)
Lemma select_start_raises (fs : list Z) (L : Z) :
  Py.len fs <= L -> select_start fs L = None.
Proof.
  intros HL. unfold select_start.
  assert (Hnil : window_sums fs L = []).
  { apply length_zero_iff_nil. rewrite window_sums_length. lia. }
  by rewrite Hnil.
Qed.

(** ** Slices and the score array *)

Lemma slice_bound_nonneg (n i : Z) :
  0 <= n -> 0 <= i -> Py.slice_bound n i = Z.min i n.
Proof. intros Hn Hi. unfold Py.slice_bound. by rewrite (proj2 (Z.ltb_ge i 0)). Qed.

Lemma slice_nil {A} (a b : Z) : Py.slice (@nil A) a b = [].
Proof. unfold Py.slice. by rewrite drop_nil, take_nil. Qed.

Lemma slice_empty_range {A} (l : list A) : Py.slice l 0 0 = [].
Proof.
  unfold Py.slice, Py.len. rewrite !slice_bound_nonneg by lia.
  rewrite Z.sub_diag. apply take_0.
Qed.

Lemma add_slice_length (a : list Z) (s e v : Z) :
  length (Np.add_slice a s e v) = length a.
Proof. unfold Np.add_slice. by rewrite length_imap. Qed.

Lemma add_slice_lookup (a : list Z) (s e v : Z) (i : nat) :
  0 <= s -> 0 <= e ->
  Np.add_slice a s e v !! i =
    (fun x => if bool_decide (s <= Z.of_nat i < e) then x + v else x) <$> a !! i.
Proof.
  intros Hs He. unfold Np.add_slice. rewrite list_lookup_imap.
  destruct (a !! i) as [x|] eqn:Hx; simpl; [| done].
  apply lookup_lt_Some in Hx. unfold Py.len.
  rewrite !slice_bound_nonneg by lia.
  f_equal. repeat case_bool_decide; lia.
Qed.

Lemma add_ranges_length (ranges : list (Z * Z)) : forall fs,
  length (add_ranges fs ranges) = length fs.
Proof.
  induction ranges as [|r ranges IH]; intros fs; simpl; [done |].
  unfold add_ranges in *. simpl. by rewrite IH, add_slice_length.
Qed.

Lemma add_ranges_lookup (ranges : list (Z * Z)) : forall fs i,
  Forall (fun r => 0 <= r.1 /\ 0 <= r.2) ranges ->
  add_ranges fs ranges !! i = (fun x => x + covering ranges i) <$> fs !! i.
Proof.
  induction ranges as [|r ranges IH]; intros fs i Hnn.
  - unfold add_ranges, covering. simpl.
    destruct (fs !! i); simpl; [f_equal | done].
    rewrite filter_nil. unfold Py.len. simpl. lia.
  - apply Forall_cons in Hnn as [[Hr1 Hr2] Hnn].
    unfold add_ranges in *. simpl. rewrite IH by done.
    rewrite add_slice_lookup by done.
    destruct (fs !! i) as [x|]; simpl; [| done]. f_equal.
    unfold covering. rewrite filter_cons. unfold Py.len.
    case_bool_decide; case_decide; simpl; try lia; tauto.
Qed.

(** The loop of lines 78-80, started at offset [k] of the enumeration. *)
Lemma add_diffs_from (diffs : list Z) : forall (k : nat) fs,
  let step := fun (fs : list Z) (p : nat * Z) =>
    if bool_decide (Z.of_nat p.1 < Py.len fs) then Np.add_at fs p.1 p.2 else fs in
  let out := foldl step fs (imap (fun i x => ((k + i)%nat, x)) diffs) in
  length out = length fs /\
  forall i,
    out !! i =
      (fun x => x + (if bool_decide (k <= i)%nat
                     then default 0 (diffs !! (i - k)%nat) else 0)) <$> fs !! i.
Proof.
  induction diffs as [|d diffs IH]; intros k fs; cbv zeta.
  - simpl. split; [done |]. intros i. destruct (fs !! i); simpl; [| done].
    f_equal. case_bool_decide; simpl; lia.
  - simpl. rewrite Nat.add_0_r.
    rewrite (imap_ext _ (fun i x => ((S k + i)%nat, x)))
      by (intros; simpl; f_equal; lia).
    set (fs' := if bool_decide (Z.of_nat k < Py.len fs) then Np.add_at fs k d else fs).
    destruct (IH (S k) fs') as [Hlen Hlook].
    assert (Hl : length fs' = length fs).
    { unfold fs'. case_bool_decide; [| done]. unfold Np.add_at. by rewrite length_alter. }
    split; [by rewrite Hlen |].
    intros i. rewrite Hlook. clear Hlook Hlen IH.
    destruct (decide (i = k)) as [-> | Hne].
    + rewrite (bool_decide_eq_false_2 (S k <= k)%nat) by lia.
      rewrite (bool_decide_eq_true_2 (k <= k)%nat) by lia.
      replace (k - k)%nat with 0%nat by lia. simpl.
      unfold fs'. case_bool_decide as Hin.
      * unfold Np.add_at. rewrite list_lookup_alter_eq.
        destruct (fs !! k); simpl; [| done]. f_equal. lia.
      * rewrite (lookup_ge_None_2 fs k); [done |]. unfold Py.len in Hin. lia.
    + assert (Hsame : fs' !! i = fs !! i).
      { unfold fs'. case_bool_decide; [| done]. unfold Np.add_at.
        by rewrite list_lookup_alter_ne. }
      rewrite Hsame. destruct (fs !! i); simpl; [| done]. f_equal.
      repeat case_bool_decide; try lia.
      replace (i - k)%nat with (S (i - S k)) by lia. done.
Qed.

Lemma add_diffs_length (fs diffs : list Z) : length (add_diffs fs diffs) = length fs.
Proof.
  unfold add_diffs, Py.enumerate.
  destruct (add_diffs_from diffs 0 fs) as [H _]. exact H.
Qed.

Lemma add_diffs_lookup (fs diffs : list Z) (i : nat) :
  add_diffs fs diffs !! i = (fun x => x + default 0 (diffs !! i)) <$> fs !! i.
Proof.
  unfold add_diffs, Py.enumerate.
  destruct (add_diffs_from diffs 0 fs) as [_ H]. rewrite H.
  destruct (fs !! i); simpl; [| done].
  by rewrite Nat.sub_0_r.
Qed.

Lemma build_scores_length N ranges diffs : length (build_scores N ranges diffs) = N.
Proof.
  unfold build_scores.
  by rewrite add_diffs_length, add_ranges_length, length_replicate.
Qed.

Lemma build_scores_lookup N ranges diffs (i : nat) :
  Forall (fun r => 0 <= r.1 /\ 0 <= r.2) ranges -> (i < N)%nat ->
  build_scores N ranges diffs !! i = Some (default 0 (diffs !! i) + covering ranges i).
Proof.
  intros Hnn Hi. unfold build_scores.
  rewrite add_diffs_lookup, add_ranges_lookup by done.
  rewrite lookup_replicate_2 by done. simpl. f_equal. lia.
Qed.

Lemma scores_len (N : Z) ranges diffs :
  0 <= N ->
  Py.len (add_diffs (add_ranges (replicate (Z.to_nat N) 0) ranges) diffs) = N.
Proof.
  intros HN. unfold Py.len.
  rewrite add_diffs_length, add_ranges_length, length_replicate. lia.
Qed.

(** ** Binary64 rounding *)

Section FloatFacts.
Import Float.
Local Open Scope Q_scope.

Lemma pow2_nonneg (e : Z) : (0 <= e)%Z -> pow2 e = inject_Z (2 ^ e).
Proof. destruct e; [done | done | lia]. Qed.

Lemma pow2_neg (p : positive) : pow2 (Z.neg p) * inject_Z (2 ^ Z.pos p) == 1.
Proof.
  unfold pow2, Qeq, Qmult, inject_Z. cbn [Qnum Qden].
  rewrite Pos.mul_1_r, Pos2Z.inj_pow. lia.
Qed.

Lemma pow2_pos (e : Z) : 0 < pow2 e.
Proof.
  destruct e as [|p|p]; unfold pow2, Qlt, inject_Z; cbn [Qnum Qden]; [lia | | lia].
  pose proof (Z.pow_pos_nonneg 2 (Z.pos p)). lia.
Qed.

Lemma pow2_succ (e : Z) : pow2 (e + 1) == 2 * pow2 e.
Proof.
  destruct (Z_lt_le_dec e 0) as [Hneg | Hnn].
  - destruct e as [|p|p]; try lia.
    destruct (decide (p = 1%positive)) as [-> | Hp].
    + reflexivity.
    + assert (Hq : exists q, p = Pos.succ q) by (exists (Pos.pred p); lia).
      destruct Hq as [q ->].
      replace (Z.neg (Pos.succ q) + 1)%Z with (Z.neg q) by lia.
      unfold pow2, Qeq, Qmult. cbn [Qnum Qden]. rewrite Pos.pow_succ_r. lia.
  - rewrite !pow2_nonneg by lia. rewrite Z.add_1_r, Z.pow_succ_r by lia.
    unfold Qeq, Qmult, inject_Z. cbn [Qnum Qden]. lia.
Qed.

Lemma pow2_pred (e : Z) : 2 * pow2 (e - 1) == pow2 e.
Proof. rewrite <- pow2_succ. by replace (e - 1 + 1)%Z with e by lia. Qed.

Lemma pow2_add (a b : Z) : pow2 (a + b) == pow2 a * pow2 b.
Proof.
  revert b. apply Z.bi_induction.
  - intros x y ->. reflexivity.
  - rewrite Z.add_0_r. simpl. ring.
  - intros b. rewrite Z.add_succ_r, <- !Z.add_1_r, !pow2_succ. split.
    + intros ->. ring.
    + intros H. pose proof (pow2_pos (a + b)). pose proof (pow2_pos a).
      pose proof (pow2_pos b). lra.
Qed.

Lemma pow2_lt (a b : Z) : (a < b)%Z -> pow2 a < pow2 b.
Proof.
  intros Hab. replace b with (a + Z.pos (Z.to_pos (b - a)))%Z by lia.
  rewrite pow2_add. generalize (Z.to_pos (b - a)) as p. intros p.
  pose proof (pow2_pos a).
  assert (1 < pow2 (Z.pos p)); [| nra].
  unfold pow2, Qlt, inject_Z. cbn [Qnum Qden].
  pose proof (Z.pow_gt_1 2 (Z.pos p)). lia.
Qed.

Lemma pow2_le (a b : Z) : (a <= b)%Z -> pow2 a <= pow2 b.
Proof.
  intros Hab. destruct (decide (a = b)) as [-> | Hne]; [lra |].
  apply Qlt_le_weak, pow2_lt. lia.
Qed.

Lemma pow2_lt_inv (a b : Z) : pow2 a < pow2 b -> (a < b)%Z.
Proof.
  intros H. destruct (Z_lt_le_dec a b) as [|Hge]; [done |].
  apply pow2_le in Hge. lra.
Qed.

(** [ilog2 x] is the exponent of the binade of [x]. *)
Lemma ilog2_spec (x : Q) : 0 < x -> pow2 (ilog2 x) <= x < pow2 (ilog2 x + 1).
Proof.
  intros Hx. destruct x as [n d]. unfold ilog2. cbn [Qnum Qden].
  assert (Hn : (0 < n)%Z) by (unfold Qlt in Hx; simpl in Hx; lia).
  set (ln := Z.log2 n). set (ld := Z.log2 (Z.pos d)). set (k := (ln - ld)%Z).
  destruct (Z.log2_spec n Hn) as [Hn1 Hn2]. fold ln in Hn1, Hn2.
  destruct (Z.log2_spec (Z.pos d) ltac:(lia)) as [Hd1 Hd2]. fold ld in Hd1, Hd2.
  assert (Hln : (0 <= ln)%Z) by apply Z.log2_nonneg.
  assert (Hld : (0 <= ld)%Z) by apply Z.log2_nonneg.
  assert (Hnq : pow2 ln <= inject_Z n < pow2 (ln + 1)).
  { rewrite !pow2_nonneg by lia. rewrite <- Zle_Qle, <- Zlt_Qlt.
    rewrite <- Z.add_1_r in Hn2. done. }
  assert (Hdq : pow2 ld <= inject_Z (Z.pos d) < pow2 (ld + 1)).
  { rewrite !pow2_nonneg by lia. rewrite <- Zle_Qle, <- Zlt_Qlt.
    rewrite <- Z.add_1_r in Hd2. done. }
  assert (Hx' : n # d == inject_Z n / inject_Z (Z.pos d)) by apply Qmake_Qdiv.
  assert (Hdpos : 0 < inject_Z (Z.pos d)) by (unfold Qlt, inject_Z; simpl; lia).
  assert (Hup : (n # d) < pow2 (k + 1)).
  { rewrite Hx'. apply Qlt_shift_div_r; [done |].
    assert (H : pow2 (ln + 1) == pow2 (k + 1) * pow2 ld).
    { rewrite <- pow2_add. by replace (k + 1 + ld)%Z with (ln + 1)%Z by lia. }
    pose proof (pow2_pos (k + 1)). nra. }
  assert (Hlo : pow2 (k - 1) < (n # d)).
  { rewrite Hx'. apply Qlt_shift_div_l; [done |].
    assert (H : pow2 ln == pow2 (k - 1) * pow2 (ld + 1)).
    { rewrite <- pow2_add. by replace (k - 1 + (ld + 1))%Z with ln by lia. }
    pose proof (pow2_pos (k - 1)). nra. }
  destruct (Qle_bool (pow2 k) (n # d)) eqn:Hle.
  - apply Qle_bool_iff in Hle. done.
  - replace (k - 1 + 1)%Z with k by lia. split; [lra |].
    apply Qnot_le_lt. intros H. apply Qle_bool_iff in H. congruence.
Qed.

Lemma ilog2_unique (x : Q) (e : Z) : pow2 e <= x < pow2 (e + 1) -> ilog2 x = e.
Proof.
  intros [H1 H2]. pose proof (pow2_pos e).
  destruct (ilog2_spec x ltac:(lra)) as [H3 H4].
  assert (e < ilog2 x + 1)%Z by (apply pow2_lt_inv; lra).
  assert (ilog2 x < e + 1)%Z by (apply pow2_lt_inv; lra). lia.
Qed.

Lemma ilog2_le (x y : Q) : 0 < x -> x <= y -> (ilog2 x <= ilog2 y)%Z.
Proof.
  intros Hx Hxy.
  destruct (ilog2_spec x Hx) as [H1 _].
  destruct (ilog2_spec y ltac:(lra)) as [_ H2].
  assert (ilog2 x < ilog2 y + 1)%Z by (apply pow2_lt_inv; lra). lia.
Qed.

Lemma ilog2_comp (x y : Q) : 0 < x -> x == y -> ilog2 x = ilog2 y.
Proof.
  intros Hx Hxy. apply ilog2_unique. rewrite Hxy.
  apply ilog2_spec. by rewrite <- Hxy.
Qed.

(** ** [round(x)]: the nearest integer, ties to even *)

Lemma round_Z (x : Q) (k : Z) : x == inject_Z k -> Py.round x = k.
Proof.
  destruct x as [n d]. unfold Qeq, inject_Z, Py.round. cbn [Qnum Qden].
  intros H. assert (Hn : n = (k * Z.pos d)%Z) by lia. subst n.
  rewrite Z.div_mul, Z.mod_mul by lia.
  destruct (2 * 0 <? Z.pos d)%Z eqn:E; [done |]. apply Z.ltb_ge in E. lia.
Qed.

Lemma round_le (x y : Q) : x <= y -> (Py.round x <= Py.round y)%Z.
Proof.
  destruct x as [n1 d1], y as [n2 d2]. unfold Qle, Py.round. cbn [Qnum Qden].
  intros H.
  pose proof (Z.div_mod n1 (Z.pos d1) ltac:(lia)) as E1.
  pose proof (Z.div_mod n2 (Z.pos d2) ltac:(lia)) as E2.
  pose proof (Z.mod_pos_bound n1 (Z.pos d1) ltac:(lia)) as B1.
  pose proof (Z.mod_pos_bound n2 (Z.pos d2) ltac:(lia)) as B2.
  set (f1 := (n1 / Z.pos d1)%Z) in *. set (r1 := (n1 mod Z.pos d1)%Z) in *.
  set (f2 := (n2 / Z.pos d2)%Z) in *. set (r2 := (n2 mod Z.pos d2)%Z) in *.
  assert (Hf : (f1 <= f2)%Z).
  { unfold f1, f2.
    rewrite <- (Z.div_mul_cancel_r n1 (Z.pos d1) (Z.pos d2)) by lia.
    rewrite <- (Z.div_mul_cancel_r n2 (Z.pos d2) (Z.pos d1)) by lia.
    rewrite (Z.mul_comm (Z.pos d2) (Z.pos d1)).
    apply Z.div_le_mono; lia. }
  destruct (decide (f1 = f2)) as [Heq | Hne].
  - assert (Hr : (r1 * Z.pos d2 <= r2 * Z.pos d1)%Z) by nia.
    rewrite <- Heq.
    repeat match goal with
    | |- context [(?a <? ?b)%Z] => destruct (Z.ltb_spec a b)
    | |- context [Z.even ?a] => destruct (Z.even a)
    end; try lia; nia.
  - repeat match goal with
    | |- context [(?a <? ?b)%Z] => destruct (Z.ltb_spec a b)
    | |- context [Z.even ?a] => destruct (Z.even a)
    end; lia.
Qed.

Lemma round_near (x : Q) : Qabs (x - inject_Z (Py.round x)) <= 1 # 2.
Proof.
  apply Qabs_Qle_condition.
  destruct x as [n d]. unfold Py.round. cbn [Qnum Qden].
  pose proof (Z.div_mod n (Z.pos d) ltac:(lia)) as E.
  pose proof (Z.mod_pos_bound n (Z.pos d) ltac:(lia)) as B.
  set (f := (n / Z.pos d)%Z) in *. set (r := (n mod Z.pos d)%Z) in *.
  assert (Hx : n # d == inject_Z f + (r # d)).
  { unfold Qeq, Qplus, inject_Z. cbn [Qnum Qden]. nia. }
  assert (Hr : 0 <= r # d < 1) by (unfold Qle, Qlt; cbn [Qnum Qden]; lia).
  assert (Hhalf : forall c, (2 * r ?= Z.pos d)%Z = c ->
            match c with Lt => (r # d) < 1 # 2 | Eq => (r # d) == 1 # 2
                       | Gt => 1 # 2 < (r # d) end).
  { intros c <-. destruct (Z.compare_spec (2 * r) (Z.pos d));
      unfold Qlt, Qeq; cbn [Qnum Qden]; lia. }
  rewrite Hx.
  destruct (Z.ltb_spec (2 * r) (Z.pos d)) as [H1 | H1].
  { specialize (Hhalf Lt ltac:(by apply Z.compare_lt_iff)). simpl in Hhalf. lra. }
  destruct (Z.ltb_spec (Z.pos d) (2 * r)) as [H2 | H2].
  { specialize (Hhalf Gt ltac:(by apply Z.compare_gt_iff)). simpl in Hhalf.
    rewrite inject_Z_plus. change (inject_Z 1) with 1. lra. }
  specialize (Hhalf Eq ltac:(apply Z.compare_eq_iff; lia)). simpl in Hhalf.
  destruct (Z.even f); [lra |].
  rewrite inject_Z_plus. change (inject_Z 1) with 1. lra.
Qed.

(** ** Rounding to 53 bits *)

Lemma pow2_52 : pow2 52 = inject_Z (2 ^ 52).
Proof. reflexivity. Qed.

Lemma pow2_53 : pow2 53 = inject_Z (2 ^ 53).
Proof. reflexivity. Qed.

(** The scaled value lies in [2^52, 2^53). *)
Lemma scaled_bounds (x : Q) :
  0 < x -> pow2 52 <= x / pow2 (ilog2 x - 52) < pow2 53.
Proof.
  intros Hx. destruct (ilog2_spec x Hx) as [H1 H2].
  pose proof (pow2_pos (ilog2 x - 52)) as He.
  assert (E1 : pow2 (ilog2 x) == pow2 52 * pow2 (ilog2 x - 52)).
  { rewrite <- pow2_add. by replace (52 + (ilog2 x - 52))%Z with (ilog2 x) by lia. }
  assert (E2 : pow2 (ilog2 x + 1) == pow2 53 * pow2 (ilog2 x - 52)).
  { rewrite <- pow2_add. by replace (53 + (ilog2 x - 52))%Z with (ilog2 x + 1)%Z by lia. }
  split.
  - apply Qle_shift_div_l; [done | lra].
  - apply Qlt_shift_div_r; [done | lra].
Qed.

(** The significand chosen lies in [2^52, 2^53]. *)
Lemma significand_bounds (x : Q) :
  0 < x -> (2 ^ 52 <= Py.round (x / pow2 (ilog2 x - 52)) <= 2 ^ 53)%Z.
Proof.
  intros Hx. destruct (scaled_bounds x Hx) as [H1 H2].
  rewrite pow2_52 in H1. rewrite pow2_53 in H2.
  pose proof (round_le _ _ H1) as R1.
  rewrite (round_Z (inject_Z (2 ^ 52)) (2 ^ 52)) in R1 by reflexivity.
  pose proof (round_le _ _ (Qlt_le_weak _ _ H2)) as R2.
  rewrite (round_Z (inject_Z (2 ^ 53)) (2 ^ 53)) in R2 by reflexivity.
  done.
Qed.

Lemma nearest_bounds (x : Q) :
  0 < x -> pow2 (ilog2 x) <= nearest x <= pow2 (ilog2 x + 1).
Proof.
  intros Hx. unfold nearest.
  destruct (significand_bounds x Hx) as [H1 H2].
  rewrite Zle_Qle in H1, H2. rewrite <- pow2_52 in H1. rewrite <- pow2_53 in H2.
  pose proof (pow2_pos (ilog2 x - 52)) as He.
  assert (E1 : pow2 (ilog2 x) == pow2 52 * pow2 (ilog2 x - 52)).
  { rewrite <- pow2_add. by replace (52 + (ilog2 x - 52))%Z with (ilog2 x) by lia. }
  assert (E2 : pow2 (ilog2 x + 1) == pow2 53 * pow2 (ilog2 x - 52)).
  { rewrite <- pow2_add. by replace (53 + (ilog2 x - 52))%Z with (ilog2 x + 1)%Z by lia. }
  rewrite E1, E2. split; nra.
Qed.

Lemma nearest_pos (x : Q) : 0 < x -> 0 < nearest x.
Proof.
  intros Hx. destruct (nearest_bounds x Hx) as [H _].
  pose proof (pow2_pos (ilog2 x)). lra.
Qed.

Lemma nearest_le (x y : Q) : 0 < x -> x <= y -> nearest x <= nearest y.
Proof.
  intros Hx Hxy. assert (Hy : 0 < y) by lra.
  pose proof (ilog2_le x y Hx Hxy) as He.
  destruct (decide (ilog2 x = ilog2 y)) as [Heq | Hne].
  - unfold nearest. rewrite Heq.
    pose proof (pow2_pos (ilog2 y - 52)) as Hp.
    assert (Hs : x / pow2 (ilog2 y - 52) <= y / pow2 (ilog2 y - 52)).
    { apply Qle_shift_div_l; [done |].
      assert (E : x / pow2 (ilog2 y - 52) * pow2 (ilog2 y - 52) == x)
        by (field; lra).
      by rewrite E. }
    apply round_le in Hs. rewrite Zle_Qle in Hs. nra.
  - destruct (nearest_bounds x Hx) as [_ H1].
    destruct (nearest_bounds y Hy) as [H2 _].
    pose proof (pow2_le (ilog2 x + 1) (ilog2 y) ltac:(lia)). lra.
Qed.

Lemma nearest_comp (x y : Q) : 0 < x -> x == y -> nearest x == nearest y.
Proof.
  intros Hx Hxy. apply Qle_antisym; apply nearest_le; lra.
Qed.

(** The relative error is at most [2^-53]. *)
Lemma nearest_error (x : Q) :
  0 < x -> Qabs (nearest x - x) <= x * (1 # 2 ^ 53).
Proof.
  intros Hx. unfold nearest.
  set (e := (ilog2 x - 52)%Z). pose proof (pow2_pos e) as He.
  set (sc := x / pow2 e).
  assert (Hsc : x == sc * pow2 e) by (unfold sc; field; lra).
  pose proof (round_near sc) as Hr.
  destruct (scaled_bounds x Hx) as [Hlo _]. fold e sc in Hlo.
  rewrite pow2_52 in Hlo.
  apply Qabs_Qle_condition in Hr. apply Qabs_Qle_condition.
  set (m := inject_Z (Py.round sc)) in *.
  assert (H53 : (1 # 2 ^ 53) * inject_Z (2 ^ 52) == 1 # 2) by reflexivity.
  assert (Hu : 0 < 1 # 2 ^ 53) by reflexivity.
  revert H53 Hu Hlo. generalize (1 # 2 ^ 53) (inject_Z (2 ^ 52)). intros u c H53 Hu Hlo.
  assert (Hq : 0 < pow2 e * u) by nra.
  assert (E1 : (1 # 2) * pow2 e == c * (pow2 e * u)) by (rewrite <- H53; ring).
  assert (Hhalf : (1 # 2) * pow2 e <= sc * (pow2 e * u)) by (rewrite E1; nra).
  assert (E2 : x * u == sc * (pow2 e * u)) by (rewrite Hsc; ring).
  rewrite E2. rewrite Hsc at 1 2. split; nra.
Qed.

(** A number with a significand of at most 53 bits is its own rounding. *)
Lemma nearest_exact (x : Q) (k j : Z) :
  (0 < k <= 2 ^ 53)%Z -> x == inject_Z k * pow2 j -> nearest x == x.
Proof.
  intros Hk Hx. pose proof (pow2_pos j) as Hj.
  assert (Hkq : 0 < inject_Z k <= inject_Z (2 ^ 53)).
  { split; [change 0 with (inject_Z 0); rewrite <- Zlt_Qlt; lia | rewrite <- Zle_Qle; lia]. }
  assert (Hx0 : 0 < x) by (rewrite Hx; nra).
  unfold nearest. set (e := (ilog2 x - 52)%Z). pose proof (pow2_pos e) as He.
  destruct (scaled_bounds x Hx0) as [Hlo Hhi]. fold e in Hlo, Hhi.
  assert (Hint : exists z, x / pow2 e == inject_Z z).
  { destruct (Z_le_gt_dec e j) as [Hej | Hej].
    - exists (k * 2 ^ (j - e))%Z. rewrite inject_Z_mult, <- pow2_nonneg by lia.
      rewrite Hx. replace j with (j - e + e)%Z at 1 by lia.
      rewrite pow2_add. field. lra.
    - exists (2 ^ 52)%Z.
      assert (E : pow2 e == pow2 (e - j) * pow2 j).
      { rewrite <- pow2_add. by replace (e - j + j)%Z with e by lia. }
      assert (Hge : pow2 52 * pow2 (e - j) <= inject_Z k).
      { assert (H : pow2 52 * pow2 e <= x).
        { assert (Hxs : x == x / pow2 e * pow2 e) by (field; lra).
          rewrite Hxs. apply Qmult_le_compat_r; [exact Hlo | lra]. }
        rewrite Hx, E in H. pose proof (pow2_pos (e - j)). nra. }
      assert (H1 : (e - j < 2)%Z).
      { apply pow2_lt_inv. change (pow2 2) with 4.
        rewrite pow2_52 in Hge. rewrite pow2_53 in Hhi.
        assert (inject_Z (2 ^ 53) == 2 * inject_Z (2 ^ 52)) by reflexivity.
        assert (0 < inject_Z (2 ^ 52)) by reflexivity.
        pose proof (pow2_pos (e - j)). nra. }
      assert (Hej1 : (e - j = 1)%Z) by lia.
      rewrite Hej1 in Hge, E. change (pow2 1) with 2 in Hge, E.
      rewrite pow2_52 in Hge.
      assert (Hk53 : inject_Z k == inject_Z (2 ^ 53)).
      { assert (inject_Z (2 ^ 53) == inject_Z (2 ^ 52) * 2) by reflexivity. lra. }
      rewrite Hx, E, Hk53.
      assert (inject_Z (2 ^ 53) == inject_Z (2 ^ 52) * 2) as -> by reflexivity.
      field. lra. }
  destruct Hint as [z Hz]. rewrite (round_Z _ z Hz), <- Hz. field. lra.
Qed.

(** ** [fl] *)

Lemma fl_zero (x : Q) : x == 0 -> fl x = 0.
Proof.
  destruct x as [n d]. unfold Qeq, fl. cbn [Qnum Qden]. intros H.
  assert (n = 0%Z) as -> by lia. done.
Qed.

Lemma fl_positive (x : Q) : 0 < x -> fl x = nearest x.
Proof.
  destruct x as [n d]. unfold Qlt, fl. cbn [Qnum Qden]. intros H.
  destruct n; [lia | done | lia].
Qed.

Lemma fl_negative (x : Q) : x < 0 -> fl x = - nearest (- x).
Proof.
  destruct x as [n d]. unfold Qlt, fl. cbn [Qnum Qden]. intros H.
  destruct n; [lia | lia | done].
Qed.

Lemma fl_sign (x : Q) :
  (x < 0 /\ fl x < 0) \/ (x == 0 /\ fl x == 0) \/ (0 < x /\ 0 < fl x).
Proof.
  destruct (Q_dec x 0) as [[Hneg | Hpos] | Hz].
  - left. split; [done |]. rewrite fl_negative by done.
    pose proof (nearest_pos (- x) ltac:(lra)). lra.
  - right. right. split; [done |]. rewrite fl_positive by done. by apply nearest_pos.
  - right. left. split; [done |]. by rewrite fl_zero.
Qed.

(** Rounding is monotone. *)
Lemma fl_le (x y : Q) : x <= y -> fl x <= fl y.
Proof.
  intros Hxy.
  destruct (fl_sign x) as [[Hx Hfx] | [[Hx Hfx] | [Hx Hfx]]],
           (fl_sign y) as [[Hy Hfy] | [[Hy Hfy] | [Hy Hfy]]]; try lra.
  - rewrite !fl_negative by done.
    pose proof (nearest_le (- y) (- x) ltac:(lra) ltac:(lra)). lra.
  - rewrite !fl_positive by done. by apply nearest_le.
Qed.

Lemma fl_comp (x y : Q) : x == y -> fl x == fl y.
Proof. intros H. apply Qle_antisym; apply fl_le; lra. Qed.

Lemma fl_nonneg (x : Q) : 0 <= x -> 0 <= fl x.
Proof.
  intros Hx. destruct (fl_sign x) as [[? ?] | [[? ?] | [? ?]]]; lra.
Qed.

Lemma fl_error (x : Q) : Qabs (fl x - x) <= Qabs x * (1 # 2 ^ 53).
Proof.
  destruct (Q_dec x 0) as [[Hneg | Hpos] | Hz].
  - rewrite fl_negative by done.
    pose proof (nearest_error (- x) ltac:(lra)) as H.
    rewrite (Qabs_neg x) by lra.
    apply Qabs_Qle_condition in H. apply Qabs_Qle_condition. lra.
  - rewrite fl_positive by done. rewrite (Qabs_pos x) by lra.
    by apply nearest_error.
  - rewrite (fl_zero x Hz). rewrite Hz. vm_compute. discriminate.
Qed.

(** Integers up to [2^53] are their own rounding. *)
Lemma fl_Z (z : Z) : (Z.abs z <= 2 ^ 53)%Z -> fl (inject_Z z) == inject_Z z.
Proof.
  intros Hz. destruct (Z.lt_trichotomy z 0) as [Hneg | [-> | Hpos]].
  - rewrite fl_negative by (change 0 with (inject_Z 0); by rewrite <- Zlt_Qlt).
    rewrite (nearest_exact (- inject_Z z) (- z) 0).
    + ring.
    + lia.
    + rewrite inject_Z_opp. simpl. ring.
  - reflexivity.
  - rewrite fl_positive by (change 0 with (inject_Z 0); by rewrite <- Zlt_Qlt).
    apply (nearest_exact _ z 0); [lia | simpl; ring].
Qed.

End FloatFacts.

(** ** Arithmetic of [int(...)] *)

Section IntFacts.
Import Float.

Lemma quot_neg_numerator (a : Z) (b : positive) :
  a < 0 -> Z.quot a (Z.pos b) = - ((- a) / Z.pos b).
Proof.
  intros Ha. rewrite <- (Z.quot_div_nonneg (- a)) by lia.
  rewrite Z.quot_opp_l by lia. lia.
Qed.

Lemma quot_frac_le (a c : Z) (b d : positive) :
  a * Z.pos d <= c * Z.pos b -> Z.quot a (Z.pos b) <= Z.quot c (Z.pos d).
Proof.
  intros H.
  destruct (Z.le_gt_cases 0 a) as [Ha | Ha]; destruct (Z.le_gt_cases 0 c) as [Hc | Hc].
  - rewrite !Z.quot_div_nonneg by lia.
    apply Z.div_le_lower_bound; [lia |].
    pose proof (Z.mul_div_le a (Z.pos b) ltac:(lia)). nia.
  - nia.
  - rewrite quot_neg_numerator by done.
    assert (0 <= (- a) / Z.pos b) by (apply Z.div_pos; lia).
    assert (0 <= Z.quot c (Z.pos d)) by (apply Z.quot_pos; lia). lia.
  - rewrite !quot_neg_numerator by done.
    apply -> Z.opp_le_mono.
    apply Z.div_le_lower_bound; [lia |].
    pose proof (Z.mul_div_le (- c) (Z.pos d) ltac:(lia)). nia.
Qed.

(** Truncation toward zero is monotone. *)
Lemma int_mono (x y : Q) : (x <= y)%Q -> Py.int x <= Py.int y.
Proof. unfold Qle, Py.int. apply quot_frac_le. Qed.

Lemma int_comp (x y : Q) : (x == y)%Q -> Py.int x = Py.int y.
Proof.
  intros H. apply Z.le_antisymm; apply int_mono; rewrite H; apply Qle_refl.
Qed.

Lemma int_inject_Z (k : Z) : Py.int (inject_Z k) = k.
Proof. unfold Py.int, inject_Z. cbn [Qnum Qden]. apply Z.quot_1_r. Qed.

(** On a non-negative value truncation is the floor. *)
Lemma int_floor (x : Q) :
  (0 <= x)%Q -> (inject_Z (Py.int x) <= x < inject_Z (Py.int x) + 1)%Q.
Proof.
  destruct x as [n d]. unfold Qle, Qlt, Qplus, Py.int, inject_Z. cbn [Qnum Qden].
  intros Hn. rewrite Z.quot_div_nonneg by lia.
  pose proof (Z.mul_div_le n (Z.pos d) ltac:(lia)).
  pose proof (Z.mul_succ_div_gt n (Z.pos d) ltac:(lia)). lia.
Qed.

(** The floor is the only integer in that position. *)
Lemma int_floor_unique (x : Q) (k : Z) :
  (inject_Z k <= x < inject_Z k + 1)%Q -> 0 <= k -> Py.int x = k.
Proof.
  intros [H1 H2] Hk.
  assert (Hx : (0 <= x)%Q).
  { apply Qle_trans with (inject_Z k); [| done].
    change 0%Q with (inject_Z 0). by rewrite <- Zle_Qle. }
  destruct (int_floor x Hx) as [H3 H4].
  assert (inject_Z k < inject_Z (Py.int x) + 1)%Q by lra.
  assert (inject_Z (Py.int x) < inject_Z k + 1)%Q by lra.
  change 1%Q with (inject_Z 1) in *. rewrite <- inject_Z_plus in *.
  rewrite <- Zlt_Qlt in *. lia.
Qed.

(** A float truncated to an integer is a float again: the integer is
    its own rounding. *)
Lemma fl_int_fl (x : Q) :
  0 <= Py.int (fl x) -> (fl (inject_Z (Py.int (fl x))) == inject_Z (Py.int (fl x)))%Q.
Proof.
  intros HT. set (T := Py.int (fl x)) in *.
  destruct (decide (T = 0)) as [-> | HT0]; [reflexivity |].
  assert (HTpos : 0 < T) by lia.
  destruct (fl_sign x) as [[Hx Hfx] | [[Hx Hfx] | [Hx Hfx]]].
  - exfalso. assert (T <= Py.int 0) by (apply int_mono; lra).
    change (Py.int 0) with 0 in *. lia.
  - exfalso. assert (T = Py.int 0) by (by apply int_comp).
    change (Py.int 0) with 0 in *. lia.
  - destruct (int_floor (fl x) ltac:(lra)) as [Hlo Hhi]. fold T in Hlo, Hhi.
    assert (HTq : (0 < inject_Z T)%Q).
    { change 0%Q with (inject_Z 0). by rewrite <- Zlt_Qlt. }
    rewrite fl_positive by done.
    rewrite fl_positive in Hlo, Hhi by done.
    set (e := (ilog2 x - 52)%Z) in *.
    destruct (significand_bounds x Hx) as [Hm1 Hm2]. fold e in Hm1, Hm2.
    unfold nearest in Hlo, Hhi. fold e in Hlo, Hhi.
    set (m := Py.round (x / pow2 e)) in *.
    destruct (Z_le_gt_dec 0 e) as [He | He].
    + (* the float is an integer already *)
      assert (Hval : (inject_Z m * pow2 e == inject_Z (m * 2 ^ e))%Q).
      { rewrite pow2_nonneg by done. by rewrite inject_Z_mult. }
      assert (HTeq : T = m * 2 ^ e).
      { apply Z.le_antisymm.
        - rewrite Zle_Qle. lra.
        - assert (inject_Z (m * 2 ^ e) < inject_Z T + 1)%Q by lra.
          change 1%Q with (inject_Z 1) in *. rewrite <- inject_Z_plus in *.
          rewrite <- Zlt_Qlt in *. lia. }
      apply (nearest_exact _ m e); [lia |].
      rewrite HTeq. by rewrite Hval.
    + (* the float is below 2^52 *)
      apply (nearest_exact _ T 0); [| simpl; ring].
      split; [done |].
      assert (Hp : (pow2 e <= 1 # 2)%Q).
      { change (1 # 2)%Q with (pow2 (-1)). apply pow2_le. lia. }
      assert (Hmq : (inject_Z m <= inject_Z (2 ^ 53))%Q) by (by rewrite <- Zle_Qle).
      assert (HTle : (inject_Z T <= inject_Z (2 ^ 52))%Q).
      { pose proof (pow2_pos e).
        assert (inject_Z (2 ^ 53) == 2 * inject_Z (2 ^ 52))%Q by reflexivity.
        assert (0 < inject_Z (2 ^ 52))%Q by reflexivity.
        assert (0 < inject_Z m)%Q.
        { change 0%Q with (inject_Z 0). rewrite <- Zlt_Qlt. lia. }
        nra. }
      rewrite <- Zle_Qle in HTle. lia.
Qed.

End IntFacts.

Section FrameArithmetic.
Import Float.

Lemma mul_zero_r (x : Q) : Py.int (Float.mul x (inject_Z 0)) = 0.
Proof.
  unfold Float.mul. rewrite (fl_zero (x * inject_Z 0)); [done |].
  change (inject_Z 0) with 0%Q. ring.
Qed.

(** Lines 85 and 88 together: a frame count that came out of line 43 is
    found again. *)
Lemma highlight_frames_adjusted (v : Clip) (f : Z) :
  f <> 0 -> 0 <= total_frames_of v ->
  highlight_frames_of (inject_Z (total_frames_of v) / inject_Z f)%Q f
    = total_frames_of v.
Proof.
  intros Hf HT. unfold highlight_frames_of, Float.mul.
  assert (Hfq : ~ (inject_Z f == 0)%Q).
  { unfold Qeq, inject_Z. simpl. lia. }
  assert (E : (inject_Z (total_frames_of v) / inject_Z f * inject_Z f
               == inject_Z (total_frames_of v))%Q) by (field; done).
  rewrite (int_comp _ _ (fl_comp _ _ E)).
  unfold total_frames_of, Float.mul in *.
  rewrite (int_comp _ _ (fl_int_fl _ HT)). apply int_inject_Z.
Qed.

Lemma mul_mono_l (x y : Q) (f : Z) :
  0 <= f -> (x <= y)%Q ->
  Py.int (Float.mul x (inject_Z f)) <= Py.int (Float.mul y (inject_Z f)).
Proof.
  intros Hf Hxy. apply int_mono, fl_le.
  apply Qmult_le_compat_r; [done |]. unfold Qle. simpl. lia.
Qed.

Lemma to_frame_mono (a b fps : Z) :
  0 <= fps -> a <= b -> to_frame a fps <= to_frame b fps.
Proof.
  intros Hfps Hab. unfold to_frame. apply mul_mono_l; [done |].
  apply fl_le. unfold Qle, Qdiv, Qmult, Qinv, inject_Z. simpl. lia.
Qed.

Lemma to_frame_zero (fps : Z) : to_frame 0 fps = 0.
Proof.
  unfold to_frame, Float.div, Float.mul.
  rewrite (fl_zero (inject_Z 0 / inject_Z 1000)) by reflexivity.
  rewrite (fl_zero (0 * inject_Z fps)); [done | ring].
Qed.

Lemma to_frame_nonneg (ms fps : Z) : 0 <= ms -> 0 <= fps -> 0 <= to_frame ms fps.
Proof.
  intros Hms Hfps. rewrite <- (to_frame_zero fps). by apply to_frame_mono.
Qed.

End FrameArithmetic.

Lemma nonsilent_to_frames_nonneg (fps : Z) (ranges : list (Z * Z)) :
  0 <= fps -> Forall (fun r => 0 <= r.1 /\ 0 <= r.2) ranges ->
  Forall (fun r => 0 <= r.1 /\ 0 <= r.2) (nonsilent_to_frames fps ranges).
Proof.
  intros Hfps Hnn. unfold nonsilent_to_frames. apply Forall_fmap.
  eapply Forall_impl; [exact Hnn |]. intros [a b] [Ha Hb]; simpl in *.
  split; by apply to_frame_nonneg.
Qed.

(** ** The frame-difference signal *)

(** One magnitude per frame after the first. *)
Lemma read_loop_length (fr : list Frame) : forall prev acc,
  length (read_loop prev acc fr) =
    (length acc + (length fr - (match prev with Some _ => 0 | None => 1 end)))%nat.
Proof.
  induction fr as [|f fr IH]; intros prev acc; simpl.
  - destruct prev; lia.
  - rewrite IH. destruct prev; simpl; [rewrite length_app; simpl |]; lia.
Qed.

Lemma np_sum_nonneg (a : list Z) : Forall (fun x => 0 <= x) a -> 0 <= Np.sum a.
Proof.
  induction 1 as [|x a Hx _ IH]; simpl; [done | lia].
Qed.

Lemma absdiff_nonneg (f g : list Z) : Forall (fun x => 0 <= x) (Np.absdiff f g).
Proof.
  unfold Np.absdiff. revert g.
  induction f as [|x f IH]; intros [|y g]; simpl; constructor; [lia | apply IH].
Qed.

(** Every magnitude is non-negative. *)
Lemma read_loop_nonneg (fr : list Frame) : forall prev acc,
  Forall (fun x => 0 <= x) acc ->
  Forall (fun x => 0 <= x) (read_loop prev acc fr).
Proof.
  induction fr as [|f fr IH]; intros prev acc Hacc; simpl; [done |].
  apply IH. destruct prev; [| done].
  apply Forall_app. split; [done |].
  constructor; [| constructor]. apply np_sum_nonneg, absdiff_nonneg.
Qed.

Lemma read_loop_short (fr : list Frame) :
  (length fr < 2)%nat -> read_loop None [] fr = [].
Proof.
  intros H. apply length_zero_iff_nil. rewrite read_loop_length. simpl. lia.
Qed.

Lemma frame_diffs_short env v :
  (length (frames env) < 2)%nat -> frame_diffs_of env v = [].
Proof.
  intros H. unfold frame_diffs_of. rewrite read_loop_short by done.
  apply slice_nil.
Qed.

Lemma frame_diffs_fps_zero env v : fps_of v = 0 -> frame_diffs_of env v = [].
Proof.
  intros H. unfold frame_diffs_of, total_frames_of. rewrite H, mul_zero_r.
  apply slice_empty_range.
Qed.

Lemma highlight_frames_clamped (v : Clip) :
  highlight_frames_of (duration v) (fps_of v) = total_frames_of v.
Proof. reflexivity. Qed.

Lemma argmax_window_full (N : Z) ranges diffs L i :
  0 <= N -> N <= L ->
  Np.argmax (window_sums
     (add_diffs (add_ranges (replicate (Z.to_nat N) 0) ranges) diffs) L) = Some i ->
  False.
Proof.
  intros HN HL Hsel.
  pose proof (select_start_raises
    (add_diffs (add_ranges (replicate (Z.to_nat N) 0) ranges) diffs) L) as Hnone.
  unfold select_start in Hnone. rewrite Hnone in Hsel; [done |].
  by rewrite scores_len.
Qed.

(** ** Walking the control flow of [extract_highlight] *)

Create HintDb run discriminated.
#[local] Hint Unfold extract_highlight library_call np_zeros np_argmax
  st_warning enter NamedTemporaryFile os_remove_audio try_finally write_clip
  modify mbind M_bind mret M_ret raise : run.

Ltac run_unfold := repeat autounfold with run.
Ltac run_simpl := cbn [temp_audio warnings output stages fst snd].

(** Case analysis along the control flow, in program order; [leaf] is
    run on each exit.  The hypotheses are named after the test taken. *)
Ltac walk_tail env v leaf :=
  match goal with
  | |- context [Np.argmax ?a] =>
      destruct (Np.argmax a) as [i|] eqn:Hsel; run_simpl;
      [ destruct (write_videofile env) eqn:Hwv; run_simpl; leaf
      | leaf ]
  end.

Ltac walk_clamp env v leaf :=
  match goal with
  | |- context [total_frames_of v <? ?x] =>
      destruct (total_frames_of v <? x) eqn:Hclamp; run_simpl;
      [ destruct (fps_of v =? 0) eqn:Hfps; run_simpl;
        [ leaf | walk_tail env v leaf ]
      | walk_tail env v leaf ]
  end.

Ltac walk_checks env v r leaf :=
  destruct (write_audiofile env) eqn:Hwa; run_simpl;
  [ destruct (detect_nonsilent env) as [r|] eqn:Hdet; run_simpl;
    [ destruct (bool_decide (r = [])) eqn:Hr; run_simpl;
      [ leaf
      | destruct (isOpened env) eqn:Hopen; run_simpl;
        [ destruct (bool_decide (frame_diffs_of env v = [])) eqn:Hdiffs; run_simpl;
          [ leaf
          | destruct (total_frames_of v <? 0) eqn:Hneg; run_simpl;
            [ leaf
            | rewrite (scores_len (total_frames_of v))
                by (apply Z.ltb_ge; assumption);
              walk_clamp env v leaf ] ]
        | leaf ] ]
    | leaf ]
  | leaf ].

Ltac walk env hd v r leaf :=
  run_unfold;
  destruct (isfile env) eqn:Hfile; run_simpl;
  [ destruct (VideoFileClip env) as [v|] eqn:Hclip; run_simpl;
    [ destruct (Py.ltb (duration v) hd) eqn:Hlt; run_simpl;
      walk_checks env v r leaf
    | leaf ]
  | leaf ].

Ltac raised := eexists _, _; split; [reflexivity |].

(** The only way to a returned value: every check passes, the duration
    was not adjusted, the requested window is strictly shorter than the
    video, and the clip written is the window the selector chose. *)
Lemma extract_highlight_Return env hd s p s' :
  extract_highlight env hd s = (Return p, s') ->
  exists v r i,
    VideoFileClip env = Some v /\ detect_nonsilent env = Some r /\
    Py.ltb (duration v) hd = false /\
    fps_of v <> 0 /\
    highlight_frames_of hd (fps_of v) < total_frames_of v /\
    select_start
      (build_scores (Z.to_nat (total_frames_of v))
         (nonsilent_to_frames (fps_of v) r) (frame_diffs_of env v))
      (highlight_frames_of hd (fps_of v)) = Some i /\
    p = output_path env /\
    s' = {| temp_audio := false;
            warnings := warnings s;
            output := Some ((inject_Z (Z.of_nat i) / inject_Z (fps_of v))%Q,
                            (inject_Z (Z.of_nat i + highlight_frames_of hd (fps_of v))
                               / inject_Z (fps_of v))%Q);
            stages := ((stages s ++ [Scoring]) ++ [Selection]) ++ [Extraction] |}.
Proof.
  walk env hd v r ltac:(try discriminate).
  - (* adjusted at line 26 and again at line 85 *)
    intros _. rewrite highlight_frames_clamped in Hclamp. lia.
  - (* adjusted at line 26 *)
    intros _. exfalso. apply Z.ltb_ge in Hneg.
    eapply argmax_window_full; [exact Hneg | | exact Hsel].
    rewrite highlight_frames_clamped. lia.
  - (* adjusted at line 85 *)
    intros _. exfalso. apply Z.ltb_ge in Hneg. apply Z.eqb_neq in Hfps.
    rewrite highlight_frames_adjusted in Hsel by done.
    eapply argmax_window_full; [exact Hneg | | exact Hsel]. lia.
  - (* not adjusted *)
    intros [= <- <-]. apply Z.ltb_ge in Hneg, Hclamp.
    apply bool_decide_eq_false in Hdiffs.
    exists v, r, i. split_and!; try done.
    + intros Hz. by apply Hdiffs, frame_diffs_fps_zero.
    + destruct (Z.lt_ge_cases (highlight_frames_of hd (fps_of v)) (total_frames_of v))
        as [Hlt' | Hge]; [done | exfalso].
      eapply argmax_window_full; [exact Hneg | exact Hge | exact Hsel].
Qed.

(** A request of at least the whole video never returns. *)
Lemma full_length_request_never_returns env hd s v p s' :
  VideoFileClip env = Some v ->
  total_frames_of v <= highlight_frames_of hd (fps_of v) ->
  extract_highlight env hd s <> (Return p, s').
Proof.
  intros Hv Hge Hrun.
  apply extract_highlight_Return in Hrun
    as (v' & r & i & Hv' & _ & _ & _ & Hlt & _).
  simplify_eq. lia.
Qed.

(** When a value is returned, the clip written spans
    [min(requested_frames, total_frames)] frames. *)
Lemma returned_window_length env hd s p s' :
  extract_highlight env hd s = (Return p, s') ->
  exists v i,
    VideoFileClip env = Some v /\
    output s' = Some ((inject_Z (Z.of_nat i) / inject_Z (fps_of v))%Q,
                      (inject_Z (Z.of_nat i + Z.min (highlight_frames_of hd (fps_of v))
                                                    (total_frames_of v))
                         / inject_Z (fps_of v))%Q).
Proof.
  intros Hrun.
  apply extract_highlight_Return in Hrun
    as (v & r & i & Hv & _ & _ & _ & Hlt & _ & _ & ->).
  exists v, i. split; [done |]. simpl. by rewrite Z.min_l by lia.
Qed.

(** Where the temporary audio file stands at each exit. *)
Lemma temp_audio_at_exit env hd s o s' :
  extract_highlight env hd s = (o, s') ->
  match o with
  | Return _ | Raise NoAudioActivity | Raise (UnableToOpen _)
  | Raise NoSceneChanges => temp_audio s' = false
  | Raise (FileNotFoundError _) | Raise CouldNotProcess =>
      temp_audio s' = temp_audio s
  | Raise NegativeDimensions | Raise ArgmaxEmpty | Raise ZeroDivisionError =>
      temp_audio s' = true
  | Raise LibraryError => True
  end.
Proof.
  walk env hd v r ltac:(intros [= <- <-]; done).
Qed.

(** Both warnings of lines 25 and 27 are shown as soon as the request
    is found longer than the video, whatever happens afterwards. *)
Lemma adjustment_warns env hd s v :
  isfile env = true -> VideoFileClip env = Some v ->
  Py.ltb (duration v) hd = true ->
  exists later,
    warnings (extract_highlight env hd s).2 =
      (warnings s ++ [Exceeds hd (duration v); Adjusted (duration v)]) ++ later.
Proof.
  intros Hf Hc Hl.
  walk env hd v' r idtac; simplify_eq; simpl.
  all: try congruence.
  all: rewrite <- ?(assoc_L (++)); simpl.
  all: try (by exists []; rewrite ?app_nil_r).
  all: eexists; rewrite <- ?(assoc_L (++)); simpl; reflexivity.
Qed.

(** * The claims *)

(** ** The best-window selector (lines 89-91) *)

(** The example of the specification: ten frames, one non-silent range
    [3, 7), no visual change, a window of four frames. *)
Example selector_example :
  build_scores 10 [(3, 7)] [0; 0; 0; 0; 0; 0; 0; 0; 0] = [0; 0; 0; 1; 1; 1; 1; 0; 0; 0] /\
  select_start [0; 0; 0; 1; 1; 1; 1; 0; 0; 0] 4 = Some 3%nat.
Proof. split; reflexivity. Qed.

(** C1, at the failing input.  On the scores [0, 0, 1] with a window of
    one frame the selector scans the starts 0 and 1 only and answers 0,
    whose window sums to 0, although the valid start 2 = N - L has the
    strictly greater sum 1. *)
Theorem select_start_skips_last_window :
  select_start [0; 0; 1] 1 = Some 0%nat /\
  window_sums [0; 0; 1] 1 = [0; 0] /\
  window_sum [0; 0; 1] 1 0 = 0 /\ window_sum [0; 0; 1] 1 2 = 1.
Proof. split_and!; reflexivity. Qed.

(** The same input reached through the whole operation: three identical
    frames at one frame per second, sound in the last second only, one
    second requested.  The clip written is the first second. *)
Example last_second_is_never_chosen :
  let env := sample 3 1 (Some [(2000, 3000)]) true (still 3) in
  build_scores 3 (nonsilent_to_frames 1 [(2000, 3000)])
    (frame_diffs_of env {| duration := 3; fps := 1 |}) = [0; 0; 1] /\
  extract_highlight env 1 initial =
    (Return "/tmp/highlight.mp4"%string,
     {| temp_audio := false; warnings := []; output := Some (0%Q, 1%Q);
        stages := [Scoring; Selection; Extraction] |}).
Proof. split; vm_compute; reflexivity. Qed.

(** C2, at the failing input.  With L = N = 3 on an all-zero array the
    list handed to [np.argmax] is empty and the selector raises instead
    of answering 0. *)
Theorem select_start_full_window_raises :
  window_sums [0; 0; 0] 3 = [] /\ select_start [0; 0; 0] 3 = None.
Proof. split; reflexivity. Qed.

(** ** Clamping of the requested duration (lines 23-27 and 83-92) *)

(** C3, at the failing input.  A video of 3 s at 10 frames per second
    (N = 30) and a request of 5 s (50 frames): the duration is clamped
    and both warnings are shown, then the selection raises; no clip is
    written and the temporary audio file stays. *)
Theorem clamped_request_raises :
  extract_highlight (sample 3 10 (Some [(0, 1000)]) true (still 30)) 5 initial =
    (Raise ArgmaxEmpty,
     {| temp_audio := true; warnings := [Exceeds 5 3; Adjusted 3];
        output := None; stages := [Scoring; Selection] |}).
Proof. vm_compute. reflexivity. Qed.

(** ** Empty signals (lines 38-40 and 69-71) *)

(** C4, as amended.  Once the file, the clip and the audio have been
    read and the frame reader is open: zero non-silent intervals raise
    the audio error whatever the frame differences are; intervals with no
    frame difference raise the scene error; and an empty-signal error is
    raised exactly when at least one of the two signals is empty. *)
Theorem no_signal_iff env hd s v r :
  isfile env = true -> VideoFileClip env = Some v ->
  write_audiofile env = true -> detect_nonsilent env = Some r ->
  isOpened env = true ->
  (r = [] -> exists s', extract_highlight env hd s = (Raise NoAudioActivity, s')) /\
  (r <> [] -> frame_diffs_of env v = [] ->
     exists s', extract_highlight env hd s = (Raise NoSceneChanges, s')) /\
  ((exists e s', extract_highlight env hd s = (Raise e, s') /\ no_signal e = true)
   <-> r = [] \/ frame_diffs_of env v = []).
Proof.
  intros Hf Hc Hw Hd Ho.
  walk env hd v' r' idtac; simplify_eq.
  all: try apply bool_decide_eq_true in Hr.
  all: try apply bool_decide_eq_false in Hr.
  all: try apply bool_decide_eq_true in Hdiffs.
  all: try apply bool_decide_eq_false in Hdiffs.
  all: split_and!;
    [ try done; intros _; eexists; reflexivity
    | try done; intros _ _; eexists; reflexivity
    | split;
      [ intros (e & s' & [= <- <-] & Hns); (discriminate Hns || tauto)
      | intros [? | ?]; try done; raised; reflexivity ] ].
Qed.

Lemma no_signal_iff_witness :
  let env := sample 2 1 (Some [(0, 1000)]) true [[0]] in
  let v := {| duration := 2; fps := 1 |} in
  isfile env = true /\ VideoFileClip env = Some v /\
  write_audiofile env = true /\ detect_nonsilent env = Some [(0, 1000)] /\
  isOpened env = true /\
  (([(0, 1000)] = [] ->
    exists s', extract_highlight env 1 initial = (Raise NoAudioActivity, s')) /\
   ([(0, 1000)] <> [] -> frame_diffs_of env v = [] ->
    exists s', extract_highlight env 1 initial = (Raise NoSceneChanges, s')) /\
   ((exists e s', extract_highlight env 1 initial = (Raise e, s') /\ no_signal e = true)
    <-> [(0, 1000)] = [] \/ frame_diffs_of env v = [])).
Proof.
  intros env v. do 5 (split; [reflexivity |]).
  apply (no_signal_iff env 1 initial v [(0, 1000)]); reflexivity.
Defined.

(** C4 as stated fails: two frames that differ (a non-empty difference
    signal) and no non-silent interval, and the operation raises. *)
Lemma silent_audio_alone_is_fatal :
  frame_diffs_of (sample 2 1 (Some []) true [[0]; [9]]) {| duration := 2; fps := 1 |}
    = [9] /\
  extract_highlight (sample 2 1 (Some []) true [[0]; [9]]) 1 initial
    = (Raise NoAudioActivity, initial).
Proof. split; vm_compute; reflexivity. Qed.

(** ** The composite score array (lines 74-80) *)

(** C5, as amended.  For ranges with non-negative bounds the array has
    length exactly N, and entry i is [frame_diffs[i]] (the difference
    between frames i and i+1; nothing where the differences have run
    out) plus one for each range [start, end) covering i; what a range or
    the differences reach outside [0, N) is dropped. *)
Theorem build_scores_spec (N : nat) (ranges : list (Z * Z)) (frame_diffs : list Z) :
  Forall (fun r => 0 <= r.1 /\ 0 <= r.2) ranges ->
  length (build_scores N ranges frame_diffs) = N /\
  forall i : nat, (i < N)%nat ->
    build_scores N ranges frame_diffs !! i
      = Some (default 0 (frame_diffs !! i) + covering ranges i).
Proof.
  intros Hnn. split; [apply build_scores_length |].
  intros i Hi. by apply build_scores_lookup.
Qed.

Lemma build_scores_spec_witness :
  Forall (fun r : Z * Z => 0 <= r.1 /\ 0 <= r.2) [(1, 3); (2, 9)] /\
  (length (build_scores 4 [(1, 3); (2, 9)] [5; 6; 7]) = 4%nat /\
   forall i : nat, (i < 4)%nat ->
     build_scores 4 [(1, 3); (2, 9)] [5; 6; 7] !! i
       = Some (default 0 ([5; 6; 7] !! i) + covering [(1, 3); (2, 9)] i)).
Proof.
  assert (H : Forall (fun r : Z * Z => 0 <= r.1 /\ 0 <= r.2) [(1, 3); (2, 9)])
    by (repeat constructor; simpl; lia).
  split; [exact H |]. exact (build_scores_spec 4 [(1, 3); (2, 9)] [5; 6; 7] H).
Defined.

Example build_scores_overlap :
  build_scores 4 [(1, 3); (2, 9)] [5; 6; 7] = [5; 7; 9; 1].
Proof. reflexivity. Qed.

(** C5 as stated fails: two frames, one difference of 5, no range.  The
    difference lands on index 0, not on index 1. *)
Lemma build_scores_shifts_magnitudes :
  build_scores 2 [] [5] = [5; 0] /\
  build_scores 2 [] [5] !! 0%nat <> Some (spec_score [] [5] 0) /\
  build_scores 2 [] [5] !! 1%nat <> Some (spec_score [] [5] 1).
Proof. split_and!; [reflexivity | discriminate | discriminate]. Qed.

(** ** Milliseconds to frames (line 44) *)

(** C6, as amended.  Each endpoint is the float product of line 44
    truncated toward zero: the greatest integer not above it, never the
    nearest one.  Against the exact quotient [ms * fps / 1000], for the
    non-negative values the detector and the clip provide and below 2^40
    frames: the endpoint is never above its floor; it is the floor when
    the quotient is not a whole number; and when the quotient is a whole
    number the rounding of the two float operations can leave the
    product just below it, and the endpoint is that number or the one
    before (1160 ms at 25 frames per second give frame 28). *)
Theorem to_frame_truncates (ms fps : Z) :
  0 <= ms -> 0 <= fps -> ms * fps < 1000 * 2 ^ 40 ->
  let product :=
    Float.mul (Float.div (inject_Z ms) (inject_Z 1000)) (inject_Z fps) in
  (inject_Z (to_frame ms fps) <= product < inject_Z (to_frame ms fps) + 1)%Q /\
  to_frame ms fps <= ms * fps / 1000 /\
  ((ms * fps) mod 1000 <> 0 -> to_frame ms fps = ms * fps / 1000) /\
  ((ms * fps) mod 1000 = 0 -> ms * fps / 1000 - 1 <= to_frame ms fps).
Proof.
  intros Hms Hfps Hbound. cbv zeta.
  change (2 ^ 40) with 1099511627776 in Hbound.
  set (q := ms * fps / 1000). set (r := (ms * fps) mod 1000).
  pose proof (Z.div_mod (ms * fps) 1000 ltac:(lia)) as Hdm.
  pose proof (Z.mod_pos_bound (ms * fps) 1000 ltac:(lia)) as Hr.
  fold q r in Hdm, Hr.
  assert (Hq : 0 <= q) by (apply Z.div_pos; nia).
  unfold to_frame, Float.mul, Float.div.
  set (a := (inject_Z ms / inject_Z 1000)%Q). set (f := inject_Z fps).
  assert (Ha : (0 <= a)%Q).
  { unfold a, Qle, Qdiv, Qmult, Qinv, inject_Z. simpl. lia. }
  assert (Hf : (0 <= f)%Q) by (unfold f, Qle, inject_Z; simpl; lia).
  pose proof (fl_nonneg a Ha) as Hfa.
  pose proof (fl_error a) as E1. rewrite (Qabs_pos a) in E1 by done.
  apply Qabs_Qle_condition in E1.
  set (fa := Float.fl a) in *.
  assert (Hy : (0 <= fa * f)%Q) by (by apply Qmult_le_0_compat).
  pose proof (fl_nonneg _ Hy) as Hp.
  pose proof (fl_error (fa * f)) as E2. rewrite (Qabs_pos (fa * f)) in E2 by done.
  apply Qabs_Qle_condition in E2.
  set (p := Float.fl (fa * f)) in *.
  change (2 ^ 53)%positive with 9007199254740992%positive in E1, E2.
  assert (Hx : (a * f == inject_Z q + (r # 1000))%Q).
  { unfold a, f, Qeq, Qdiv, Qmult, Qplus, Qinv, inject_Z. simpl. lia. }
  assert (Hxb : (a * f < 1099511627776)%Q).
  { unfold a, f, Qlt, Qdiv, Qmult, Qinv, inject_Z. simpl. lia. }
  assert (Hx0 : (0 <= a * f)%Q) by (by apply Qmult_le_0_compat).
  assert (D1 : (- (a * f * (1 # 9007199254740992)) <= fa * f - a * f
                <= a * f * (1 # 9007199254740992))%Q).
  { destruct E1 as [E1a E1b]. split.
    - apply (Qmult_le_compat_r _ _ f) in E1a; [| done].
      apply Qle_trans with (- (a * (1 # 9007199254740992)) * f)%Q; [| ].
      + apply Qle_lteq. right. ring.
      + apply Qle_trans with ((fa - a) * f)%Q; [done |].
        apply Qle_lteq. right. ring.
    - apply (Qmult_le_compat_r _ _ f) in E1b; [| done].
      apply Qle_trans with ((fa - a) * f)%Q.
      + apply Qle_lteq. right. ring.
      + apply Qle_trans with (a * (1 # 9007199254740992) * f)%Q; [done |].
        apply Qle_lteq. right. ring. }
  clearbody p. set (y := (fa * f)%Q) in *. set (x := (a * f)%Q) in *.
  clearbody y x.
  assert (Hnear : (x - (1 # 1000) < p < x + (1 # 1000))%Q) by lra.
  assert (Hrq : (0 <= r # 1000 /\ r # 1000 <= 999 # 1000)%Q).
  { unfold Qle. simpl. lia. }
  destruct (int_floor p Hp) as [Hlo Hhi].
  split; [done |].
  destruct (decide (r = 0)) as [Hr0 | Hr0].
  - assert (Hrz : (r # 1000 == 0)%Q) by (rewrite Hr0; reflexivity).
    assert (Hcases : Py.int p = q \/ Py.int p = q - 1).
    { destruct (Qlt_le_dec p (inject_Z q)) as [Hlt | Hge].
      - right. apply Z.le_antisymm.
        + assert (inject_Z (Py.int p) < inject_Z q)%Q by lra.
          rewrite <- Zlt_Qlt in *. lia.
        + assert (inject_Z (q - 1) < inject_Z (Py.int p) + 1)%Q.
          { assert (inject_Z (q - 1) == inject_Z q - 1)%Q
              by (unfold Qeq, Qminus, Qplus, Qopp, inject_Z; simpl; lia).
            lra. }
          change 1%Q with (inject_Z 1) in *. rewrite <- inject_Z_plus in *.
          rewrite <- Zlt_Qlt in *. lia.
      - left. apply int_floor_unique; [| done]. lra. }
    split_and!; [lia | done | intros _; lia].
  - assert (Hr1 : (1 # 1000 <= r # 1000)%Q) by (unfold Qle; simpl; lia).
    assert (Hint : Py.int p = q) by (apply int_floor_unique; [lra | done]).
    split_and!; [lia | done | done].
Qed.

Lemma to_frame_truncates_witness :
  0 <= 750 /\ 0 <= 25 /\ 750 * 25 < 1000 * 2 ^ 40 /\
  let product :=
    Float.mul (Float.div (inject_Z 750) (inject_Z 1000)) (inject_Z 25) in
  (inject_Z (to_frame 750 25) <= product < inject_Z (to_frame 750 25) + 1)%Q /\
  to_frame 750 25 <= 750 * 25 / 1000 /\
  ((750 * 25) mod 1000 <> 0 -> to_frame 750 25 = 750 * 25 / 1000) /\
  ((750 * 25) mod 1000 = 0 -> 750 * 25 / 1000 - 1 <= to_frame 750 25).
Proof.
  assert (H1 : 0 <= 750) by lia.
  assert (H2 : 0 <= 25) by lia.
  assert (H3 : 750 * 25 < 1000 * 2 ^ 40) by reflexivity.
  split; [exact H1 |]. split; [exact H2 |]. split; [exact H3 |].
  exact (to_frame_truncates 750 25 H1 H2 H3).
Defined.

(** The endpoints of the three conversions: an inexact quotient, and two
    whole quotients (29 and 57) whose float product falls just short. *)
Example to_frame_values :
  to_frame 750 25 = 18 /\ to_frame 1160 25 = 28 /\ to_frame 570 100 = 56 /\
  to_frame 1000 25 = 25.
Proof. split_and!; vm_compute; reflexivity. Qed.

(** C6 as stated fails: 750 ms at 25 frames per second is 18.75 frames,
    converted to 18 where rounding gives 19. *)
Lemma to_frame_is_not_rounding :
  to_frame 750 25 = 18 /\ to_frame_rounded 750 25 = 19 /\
  to_frame 750 25 <> to_frame_rounded 750 25.
Proof. split_and!; vm_compute; [reflexivity | reflexivity | discriminate]. Qed.

(** ** The returned value (lines 95-102) *)

(** C7, as amended.  A successful call returns the path of the clip file
    and nothing else, [gettempdir()/highlight.mp4] whatever the input;
    the duration used shows only in the bounds of the clip written,
    [start_frame / fps] and [(start_frame + highlight_frames) / fps]. *)
Theorem returns_only_the_path env hd s p s' :
  extract_highlight env hd s = (Return p, s') ->
  p = output_path env /\
  exists v i,
    VideoFileClip env = Some v /\
    output s' = Some ((inject_Z (Z.of_nat i) / inject_Z (fps_of v))%Q,
                      (inject_Z (Z.of_nat i + highlight_frames_of hd (fps_of v))
                         / inject_Z (fps_of v))%Q).
Proof.
  intros Hrun.
  apply extract_highlight_Return in Hrun
    as (v & r & i & Hv & _ & _ & _ & _ & _ & -> & ->).
  split; [done |]. by exists v, i.
Qed.

Lemma returns_only_the_path_witness :
  let env := sample 3 1 (Some [(0, 1000)]) true (still 3) in
  let s' := {| temp_audio := false; warnings := []; output := Some (0%Q, 2%Q);
               stages := [Scoring; Selection; Extraction] |} in
  extract_highlight env 2 initial = (Return "/tmp/highlight.mp4"%string, s') /\
  ("/tmp/highlight.mp4"%string = output_path env /\
   exists v i,
     VideoFileClip env = Some v /\
     output s' = Some ((inject_Z (Z.of_nat i) / inject_Z (fps_of v))%Q,
                       (inject_Z (Z.of_nat i + highlight_frames_of 2 (fps_of v))
                          / inject_Z (fps_of v))%Q)).
Proof.
  intros env s'. split; [vm_compute; reflexivity |].
  apply (returns_only_the_path env 2 initial). vm_compute; reflexivity.
Defined.

(** C7 as stated fails: on the same video a request of one second and a
    request of two seconds write clips of one and of two seconds and
    return the same value, so the value does not carry the duration. *)
Lemma returned_value_hides_duration :
  exists p s1 s2,
    extract_highlight (sample 3 1 (Some [(0, 1000)]) true (still 3)) 1 initial
      = (Return p, s1) /\
    extract_highlight (sample 3 1 (Some [(0, 1000)]) true (still 3)) 2 initial
      = (Return p, s2) /\
    output s1 = Some (0%Q, 1%Q) /\ output s2 = Some (0%Q, 2%Q).
Proof. eexists _, _, _. split_and!; vm_compute; reflexivity. Qed.

(** ** A source that cannot be opened (lines 15-21 and 47-50) *)

(** C8, as amended.  If the file is missing, the clip or the frame
    reader cannot be opened, the audio cannot be written or analysed, or
    the reader delivers no frame, the operation raises before the scoring
    and selection stages are entered and writes no clip.  The error is
    that of the first step that fails, in program order: the missing
    file, the clip, the library's own exception for the audio, the audio
    without a non-silent interval, the frame reader, the missing frames.
    It is one of the three source errors exactly when the file is
    missing, the clip does not open, or the reader does not open after
    every audio step went well. *)
Theorem source_failure_aborts env hd s :
  isfile env = false \/ VideoFileClip env = None \/ isOpened env = false \/
  write_audiofile env = false \/ detect_nonsilent env = None \/ frames env = [] ->
  exists e s', extract_highlight env hd s = (Raise e, s') /\
    stages s' = stages s /\ output s' = output s /\
    (isfile env = false -> e = FileNotFoundError (video_path env)) /\
    (isfile env = true -> VideoFileClip env = None -> e = CouldNotProcess) /\
    (isfile env = true -> VideoFileClip env <> None ->
       (write_audiofile env = false -> e = LibraryError) /\
       (write_audiofile env = true -> detect_nonsilent env = None ->
          e = LibraryError) /\
       (write_audiofile env = true -> detect_nonsilent env = Some [] ->
          e = NoAudioActivity) /\
       (forall r, write_audiofile env = true -> detect_nonsilent env = Some r ->
          r <> [] ->
          (isOpened env = false -> e = UnableToOpen (video_path env)) /\
          (isOpened env = true -> e = NoSceneChanges))) /\
    (source_unavailable e = true <->
       isfile env = false \/ VideoFileClip env = None \/
       (write_audiofile env = true /\ isOpened env = false /\
        exists r, detect_nonsilent env = Some r /\ r <> [])).
Proof.
  intros Hsrc.
  walk env hd v r idtac.
  all: try apply bool_decide_eq_true in Hr.
  all: try apply bool_decide_eq_false in Hr.
  all: try apply bool_decide_eq_false in Hdiffs.
  all: try (exfalso; destruct Hsrc as [? | [? | [? | [? | [? | Hfr]]]]];
            try congruence;
            apply Hdiffs, frame_diffs_short; rewrite Hfr; simpl; lia).
  all: raised; split; [reflexivity |]; split; [reflexivity |].
  all: split; [intros; congruence |].
  all: split; [intros; congruence |].
  all: split;
    [ intros ? ?; split; [intros; congruence |];
      split; [intros; congruence |];
      split; [intros; congruence |];
      intros r' ? ? ?; split; intros; congruence
    | ].
  all: split;
    [ first
        [ discriminate
        | intros _;
          first [ by left | by right; left
                | right; right; split; [done |]; split; [done |]; by exists r ] ]
    | intros [? | [? | (? & ? & r' & ? & ?)]];
      first [reflexivity | congruence] ].
Qed.

Lemma source_failure_aborts_witness :
  let env := sample 2 1 (Some [(0, 1000)]) false [[0]; [9]] in
  (isfile env = false \/ VideoFileClip env = None \/ isOpened env = false \/
   write_audiofile env = false \/ detect_nonsilent env = None \/ frames env = []) /\
  exists e s', extract_highlight env 1 initial = (Raise e, s') /\
    stages s' = stages initial /\ output s' = output initial /\
    (isfile env = false -> e = FileNotFoundError (video_path env)) /\
    (isfile env = true -> VideoFileClip env = None -> e = CouldNotProcess) /\
    (isfile env = true -> VideoFileClip env <> None ->
       (write_audiofile env = false -> e = LibraryError) /\
       (write_audiofile env = true -> detect_nonsilent env = None ->
          e = LibraryError) /\
       (write_audiofile env = true -> detect_nonsilent env = Some [] ->
          e = NoAudioActivity) /\
       (forall r, write_audiofile env = true -> detect_nonsilent env = Some r ->
          r <> [] ->
          (isOpened env = false -> e = UnableToOpen (video_path env)) /\
          (isOpened env = true -> e = NoSceneChanges))) /\
    (source_unavailable e = true <->
       isfile env = false \/ VideoFileClip env = None \/
       (write_audiofile env = true /\ isOpened env = false /\
        exists r, detect_nonsilent env = Some r /\ r <> [])).
Proof.
  intros env.
  assert (H : isfile env = false \/ VideoFileClip env = None \/ isOpened env = false \/
              write_audiofile env = false \/ detect_nonsilent env = None \/
              frames env = []) by (right; right; left; reflexivity).
  split; [exact H |]. exact (source_failure_aborts env 1 initial H).
Defined.

(** C8 as stated fails, for a source that cannot be opened and for one
    that cannot be decoded.  The frame reader cannot be opened and the
    audio has no non-silent interval: the error raised is the audio one
    of line 40, before the reader is even tried.  The reader opens and
    delivers no frame: the error raised is the one of line 71.  Neither
    is a source error. *)
Lemma source_failure_raises_other_errors :
  (isOpened (sample 2 1 (Some []) false [[0]; [9]]) = false /\
   extract_highlight (sample 2 1 (Some []) false [[0]; [9]]) 1 initial
     = (Raise NoAudioActivity, initial) /\
   source_unavailable NoAudioActivity = false) /\
  (frames (sample 2 1 (Some [(0, 1000)]) true []) = [] /\
   extract_highlight (sample 2 1 (Some [(0, 1000)]) true []) 1 initial
     = (Raise NoSceneChanges, initial) /\
   source_unavailable NoSceneChanges = false).
Proof. split_and!; vm_compute; reflexivity. Qed.

(** ** The temporary audio file (lines 30-50 and 83-100) *)

(** C9, at the failing input.  A video of 2 s at 5 frames per second and
    a request of exactly 2 s: nothing is adjusted, the selection raises,
    and the temporary audio file is still there when the error leaves. *)
Theorem temp_audio_left_behind :
  exists s',
    extract_highlight (sample 2 5 (Some [(0, 1000)]) true (still 10)) 2 initial
      = (Raise ArgmaxEmpty, s') /\
    temp_audio s' = true /\ warnings s' = [].
Proof. eexists. split_and!; vm_compute; reflexivity. Qed.

(** ** Fewer than two frames (lines 69-71) *)

(** C10.  When fewer than two frames are read the operation raises and
    writes no clip; when everything before line 69 went well, non-silent
    intervals included, the error is the one of line 71. *)
Theorem too_few_frames_fatal env hd s :
  (length (frames env) < 2)%nat ->
  exists e s', extract_highlight env hd s = (Raise e, s') /\
    output s' = output s /\
    (forall v r, isfile env = true -> VideoFileClip env = Some v ->
       write_audiofile env = true -> detect_nonsilent env = Some r ->
       r <> [] -> isOpened env = true -> e = NoSceneChanges).
Proof.
  intros Hshort.
  walk env hd v r idtac.
  all: try (rewrite (frame_diffs_short env v Hshort) in Hdiffs;
            by apply bool_decide_eq_false in Hdiffs).
  all: raised; split; [reflexivity |].
  all: intros v' r' ? ? ? ? Hne ?; simplify_eq; try done.
  all: by apply bool_decide_eq_true in Hr.
Qed.

Lemma too_few_frames_fatal_witness :
  let env := sample 2 5 (Some [(0, 1000)]) true [[0]] in
  (length (frames env) < 2)%nat /\
  exists e s',
    extract_highlight env 1 initial = (Raise e, s') /\
    output s' = output initial /\
    (forall v r, isfile env = true -> VideoFileClip env = Some v ->
       write_audiofile env = true -> detect_nonsilent env = Some r ->
       r <> [] -> isOpened env = true -> e = NoSceneChanges).
Proof.
  intros env. split; [simpl; lia |].
  apply (too_few_frames_fatal env 1 initial). simpl; lia.
Defined.

Example one_frame_with_sound :
  extract_highlight (sample 2 5 (Some [(0, 1000)]) true [[0]]) 1 initial
    = (Raise NoSceneChanges, initial).
Proof. vm_compute. reflexivity. Qed.

(** * Further properties of [extract_highlight] *)

(** ** Arithmetic of [int(...)], continued *)

Lemma ltb_false_le (x y : Q) : Py.ltb x y = false -> (y <= x)%Q.
Proof.
  unfold Py.ltb. intros H. apply negb_false_iff in H. by apply Qle_bool_iff.
Qed.

Lemma highlight_frames_mono (x y : Q) (f : Z) :
  0 <= f -> (x <= y)%Q -> highlight_frames_of x f <= highlight_frames_of y f.
Proof.
  intros Hf Hxy. unfold highlight_frames_of. by apply mul_mono_l.
Qed.

(** ** The selector *)

(** X1.  When the window is shorter than the array, the selector answers
    a start whose window ends before the last element, whose sum is the
    largest among the windows that end before the last element, and
    which is the lowest such start. *)
Theorem selector_lowest_maximum (fs : list Z) (L : Z) :
  L < Py.len fs ->
  exists i, select_start fs L = Some i /\
    Z.of_nat i + L < Py.len fs /\
    (forall j, Z.of_nat j + L < Py.len fs -> window_sum fs L j <= window_sum fs L i) /\
    (forall j, (j < i)%nat -> window_sum fs L j < window_sum fs L i).
Proof.
  intros HL. destruct (select_start_spec fs L HL) as (i & Hi & Hlt & Hmax & Hlow).
  exists i. split_and!; [done | lia | | done].
  intros j Hj. apply Hmax. lia.
Qed.

Lemma selector_lowest_maximum_witness :
  3 < Py.len [0; 7; 7; 0; 9] /\
  exists i, select_start [0; 7; 7; 0; 9] 3 = Some i /\
    Z.of_nat i + 3 < Py.len [0; 7; 7; 0; 9] /\
    (forall j, Z.of_nat j + 3 < Py.len [0; 7; 7; 0; 9] ->
       window_sum [0; 7; 7; 0; 9] 3 j <= window_sum [0; 7; 7; 0; 9] 3 i) /\
    (forall j, (j < i)%nat ->
       window_sum [0; 7; 7; 0; 9] 3 j < window_sum [0; 7; 7; 0; 9] 3 i).
Proof.
  split; [vm_compute; reflexivity |].
  apply (selector_lowest_maximum [0; 7; 7; 0; 9] 3). vm_compute; reflexivity.
Defined.

(** X2.  The selector raises exactly when the window is at least as long
    as the array: an empty array, a window of the whole array, a longer
    window. *)
Theorem selector_raises_iff (fs : list Z) (L : Z) :
  select_start fs L = None <-> Py.len fs <= L.
Proof.
  split; [| apply select_start_raises].
  intros Hnone. destruct (Z.le_gt_cases (Py.len fs) L) as [Hle | Hgt]; [done |].
  destruct (select_start_spec fs L) as (i & Hi & _); [lia | congruence].
Qed.

(** ** Frame counts of rounded products *)

(** The float nearest to 11.04 as a duration, at 25 frames per second
    and with a request of 11 s: the product of line 43 is rounded up to
    276, where its exact value truncates to 275, so the window of 275
    frames is strictly shorter than the video and the first 11 s are
    written.  The float nearest to 0.12 gives 3 frames. *)
Example rounded_frame_counts :
  let d := (1553741871442821 # 140737488355328)%Q in
  total_frames_of {| duration := d; fps := 25 |} = 276 /\
  Py.int (d * 25)%Q = 275 /\
  highlight_frames_of 11 25 = 275 /\
  extract_highlight (sample d 25 (Some [(0, 1000)]) true (still 280)) 11 initial
    = (Return "/tmp/highlight.mp4"%string,
       {| temp_audio := false; warnings := [];
          output := Some (0 # 25, 275 # 25)%Q;
          stages := [Scoring; Selection; Extraction] |}) /\
  total_frames_of {| duration := 1080863910568919 # 9007199254740992; fps := 25 |} = 3.
Proof. split_and!; vm_compute; reflexivity. Qed.

(** ** When the operation returns *)

(** X3.  The operation returns if and only if the file exists, the clip
    opens, the request is not longer than the video, the audio is written
    and has a non-silent interval, the frame reader opens, there is a
    frame difference, the requested window is strictly shorter than the
    video in frames, and the clip can be written. *)
Theorem returns_iff env hd s :
  (exists p s', extract_highlight env hd s = (Return p, s')) <->
  (exists v r, returns_for env hd v r).
Proof.
  unfold returns_for. split.
  - intros (p & s' & Hrun). revert Hrun.
    walk env hd v r ltac:(try discriminate).
    + intros _. rewrite highlight_frames_clamped in Hclamp. lia.
    + intros _. exfalso. apply Z.ltb_ge in Hneg.
      eapply argmax_window_full; [exact Hneg | | exact Hsel].
      rewrite highlight_frames_clamped. lia.
    + intros _. exfalso. apply Z.ltb_ge in Hneg. apply Z.eqb_neq in Hfps.
      rewrite highlight_frames_adjusted in Hsel by done.
      eapply argmax_window_full; [exact Hneg | | exact Hsel]. lia.
    + intros _. apply Z.ltb_ge in Hneg, Hclamp.
      apply bool_decide_eq_false in Hdiffs, Hr.
      exists v, r. split_and!; try done.
      destruct (Z.lt_ge_cases (highlight_frames_of hd (fps_of v)) (total_frames_of v))
        as [Hlt' | Hge]; [done | exfalso].
      eapply argmax_window_full; [exact Hneg | exact Hge | exact Hsel].
  - intros (v0 & r0 & Hf & Hc & Hl & Hwa0 & Hd & Hr0 & Ho & Hdf & HN & HL & Hwv0).
    walk env hd v r idtac; simplify_eq.
    all: try congruence.
    all: try (apply bool_decide_eq_true in Hr; done).
    all: try (apply bool_decide_eq_true in Hdiffs; done).
    all: try (apply Z.ltb_lt in Hneg; lia).
    all: try (apply Z.ltb_lt in Hclamp; lia).
    + eexists _, _; reflexivity.
    + exfalso.
      destruct (select_start_spec
        (add_diffs (add_ranges (replicate (Z.to_nat (total_frames_of v0)) 0)
                      (nonsilent_to_frames (fps_of v0) r0)) (frame_diffs_of env v0))
        (highlight_frames_of hd (fps_of v0))) as (i & Hi & _).
      { by rewrite scores_len. }
      unfold select_start in Hi. congruence.
Qed.

Lemma Return_nonneg_frames env hd s p s' v :
  extract_highlight env hd s = (Return p, s') ->
  VideoFileClip env = Some v -> 0 <= total_frames_of v.
Proof.
  walk env hd v' r ltac:(try discriminate).
  all: intros _ [= <-]; by apply Z.ltb_ge.
Qed.

(** X4.  A returned clip starts at a frame boundary and ends strictly
    before the last frame of the video: with [i] the chosen start and
    [L = int(highlight_duration * fps)], the clip written runs from
    [i / fps] to [(i + L) / fps] and [i + L < total_frames]. *)
Theorem returned_clip_inside_video env hd s p s' :
  extract_highlight env hd s = (Return p, s') ->
  exists v (i : nat),
    VideoFileClip env = Some v /\
    output s' = Some ((inject_Z (Z.of_nat i) / inject_Z (fps_of v))%Q,
                      (inject_Z (Z.of_nat i + highlight_frames_of hd (fps_of v))
                         / inject_Z (fps_of v))%Q) /\
    fps_of v <> 0 /\
    Z.of_nat i + highlight_frames_of hd (fps_of v) < total_frames_of v.
Proof.
  intros Hrun.
  destruct (extract_highlight_Return _ _ _ _ _ Hrun)
    as (v & r & i & Hv & _ & _ & Hfps & HL & Hsel & _ & ->).
  pose proof (Return_nonneg_frames _ _ _ _ _ _ Hrun Hv) as HN.
  exists v, i. split_and!; [done | done | done |].
  apply select_start_never_last in Hsel.
  unfold Py.len in Hsel. rewrite build_scores_length in Hsel. lia.
Qed.

Lemma returned_clip_inside_video_witness :
  let env := sample 4 2 (Some [(1000, 2000)]) true (still 8) in
  let s' := {| temp_audio := false; warnings := [];
               output := Some ((0 # 2)%Q, (4 # 2)%Q);
               stages := [Scoring; Selection; Extraction] |} in
  extract_highlight env 2 initial = (Return "/tmp/highlight.mp4"%string, s') /\
  exists v (i : nat),
    VideoFileClip env = Some v /\
    output s' = Some ((inject_Z (Z.of_nat i) / inject_Z (fps_of v))%Q,
                      (inject_Z (Z.of_nat i + highlight_frames_of 2 (fps_of v))
                         / inject_Z (fps_of v))%Q) /\
    fps_of v <> 0 /\
    Z.of_nat i + highlight_frames_of 2 (fps_of v) < total_frames_of v.
Proof.
  intros env s'. split; [vm_compute; reflexivity |].
  apply (returned_clip_inside_video env 2 initial "/tmp/highlight.mp4"%string).
  vm_compute; reflexivity.
Defined.

(** ** What an error leaves behind *)

(** X5.  No clip is recorded unless the operation returns: every error
    leaves the output as it was. *)
Theorem raise_writes_no_clip env hd s e s' :
  extract_highlight env hd s = (Raise e, s') -> output s' = output s.
Proof.
  walk env hd v r ltac:(intros [= <- <-]; reflexivity || discriminate).
Qed.

Lemma raise_writes_no_clip_witness :
  let env := sample 2 5 (Some [(0, 1000)]) true (still 10) in
  let s' := {| temp_audio := true; warnings := []; output := None;
               stages := [Scoring; Selection] |} in
  extract_highlight env 2 initial = (Raise ArgmaxEmpty, s') /\
  output s' = output initial.
Proof.
  intros env s'. split; [vm_compute; reflexivity |].
  apply (raise_writes_no_clip env 2 initial ArgmaxEmpty). vm_compute; reflexivity.
Defined.

(** X6.  Started with no temporary audio file, the operation leaves one
    behind exactly at the exits it does not guard: an error raised by
    [np.zeros], by [np.argmax], by the division of line 85, or by a
    library call made before the [try] of line 96.  At every other exit,
    the return included, the file is gone. *)
Theorem temp_audio_stays_iff env hd s o s' :
  temp_audio s = false -> Extraction ∉ stages s ->
  extract_highlight env hd s = (o, s') ->
  (temp_audio s' = true <-> unguarded_exit o s').
Proof.
  intros Hno Hstage.
  walk env hd v r ltac:(intros [= <- <-]; simpl).
  all: try (rewrite Hno; split; [discriminate | tauto]).
  all: try (split; [discriminate | tauto]).
  all: try (split; [done | done]).
  all: try (split; [intros _; exact Hstage | done]).
  all: split; [discriminate |].
  all: intros Hnot; exfalso; apply Hnot.
  all: apply elem_of_app; right; apply list_elem_of_singleton; reflexivity.
Qed.

Lemma temp_audio_stays_iff_witness :
  let env := sample 2 5 (Some [(0, 1000)]) true (still 10) in
  let s' := {| temp_audio := true; warnings := []; output := None;
               stages := [Scoring; Selection] |} in
  temp_audio initial = false /\ (Extraction ∉ stages initial) /\
  extract_highlight env 2 initial = (Raise ArgmaxEmpty, s') /\
  (temp_audio s' = true <-> unguarded_exit (Raise ArgmaxEmpty) s').
Proof.
  intros env s'.
  assert (H1 : temp_audio initial = false) by reflexivity.
  assert (H2 : Extraction ∉ stages initial) by (simpl; apply not_elem_of_nil).
  assert (H3 : extract_highlight env 2 initial = (Raise ArgmaxEmpty, s'))
    by (vm_compute; reflexivity).
  split_and!; [exact H1 | exact H2 | exact H3 |].
  exact (temp_audio_stays_iff env 2 initial (Raise ArgmaxEmpty) s' H1 H2 H3).
Defined.

(** X7.  A request of at least the whole video, counted in frames,
    always ends in an error and records no clip. *)
Theorem whole_video_request_raises env hd s v :
  VideoFileClip env = Some v ->
  total_frames_of v <= highlight_frames_of hd (fps_of v) ->
  exists e s', extract_highlight env hd s = (Raise e, s') /\ output s' = output s.
Proof.
  intros Hv Hge.
  destruct (extract_highlight env hd s) as [[p | e] s'] eqn:Hrun.
  - exfalso. by eapply full_length_request_never_returns.
  - exists e, s'. split; [done |]. revert Hrun.
    walk env hd v' r ltac:(intros [= <- <-]; reflexivity || discriminate).
Qed.

Lemma whole_video_request_raises_witness :
  let env := sample 2 5 (Some [(0, 1000)]) true (still 10) in
  let v := {| duration := 2; fps := 5 |} in
  VideoFileClip env = Some v /\
  total_frames_of v <= highlight_frames_of 2 (fps_of v) /\
  exists e s', extract_highlight env 2 initial = (Raise e, s') /\
    output s' = output initial.
Proof.
  intros env v.
  assert (H1 : VideoFileClip env = Some v) by reflexivity.
  assert (H2 : total_frames_of v <= highlight_frames_of 2 (fps_of v))
    by (vm_compute; discriminate).
  split_and!; [exact H1 | exact H2 |].
  exact (whole_video_request_raises env 2 initial v H1 H2).
Defined.

(** ** Warnings *)

(** X8.  With a non-negative frame rate the only warnings ever shown are
    the two of lines 25 and 27, shown together when the request is longer
    than the video; the adjustment of lines 84-86 never happens. *)
Theorem warnings_shown env hd s v :
  VideoFileClip env = Some v -> 0 <= fps_of v ->
  warnings (extract_highlight env hd s).2 =
    warnings s ++
    (if isfile env && Py.ltb (duration v) hd
     then [Exceeds hd (duration v); Adjusted (duration v)] else []).
Proof.
  intros Hv Hfps0.
  walk env hd v' r idtac; simplify_eq; simpl.
  all: rewrite ?Hlt.
  all: rewrite <- ?(assoc_L (++)); simpl; rewrite ?app_nil_r; try reflexivity.
  all: exfalso; apply Z.ltb_lt in Hclamp; apply Z.ltb_ge in Hneg.
  all: try (rewrite highlight_frames_clamped in Hclamp; lia).
  all: apply ltb_false_le in Hlt.
  all: pose proof (highlight_frames_mono _ _ _ Hfps0 Hlt) as Hmono.
  all: rewrite highlight_frames_clamped in Hmono; lia.
Qed.

Lemma warnings_shown_witness :
  let env := sample 3 10 (Some [(0, 1000)]) true (still 30) in
  let v := {| duration := 3; fps := 10 |} in
  VideoFileClip env = Some v /\ 0 <= fps_of v /\
  warnings (extract_highlight env 5 initial).2 =
    warnings initial ++
    (if isfile env && Py.ltb (duration v) 5
     then [Exceeds 5 (duration v); Adjusted (duration v)] else []).
Proof.
  intros env v.
  assert (H1 : VideoFileClip env = Some v) by reflexivity.
  assert (H2 : 0 <= fps_of v) by (vm_compute; discriminate).
  split_and!; [exact H1 | exact H2 |].
  exact (warnings_shown env 5 initial v H1 H2).
Defined.

(** ** The two signals *)

Lemma slice_prefix {A} (l : list A) (n : Z) :
  0 <= n -> Py.slice l 0 n = take (Z.to_nat n) l.
Proof.
  intros Hn. unfold Py.slice, Py.len. rewrite !slice_bound_nonneg by lia.
  replace (Z.min 0 (Z.of_nat (length l))) with 0 by lia.
  rewrite Z.sub_0_r. change (Z.to_nat 0) with 0%nat. rewrite drop_0.
  destruct (Z.le_gt_cases n (Z.of_nat (length l))) as [Hle | Hgt].
  - by rewrite Z.min_l by lia.
  - rewrite Z.min_r by lia. rewrite Nat2Z.id.
    rewrite !take_ge by lia. reflexivity.
Qed.

(** X9.  The frame-difference signal has one non-negative entry per
    frame read after the first, cut to the first [total_frames] of them:
    its length is the smaller of (frames read - 1) and [total_frames]. *)
Theorem frame_diffs_count env v :
  0 <= total_frames_of v ->
  Py.len (frame_diffs_of env v)
    = Z.min (Z.of_nat (length (frames env) - 1)) (total_frames_of v) /\
  Forall (fun d => 0 <= d) (frame_diffs_of env v).
Proof.
  intros HN. unfold frame_diffs_of. rewrite slice_prefix by done. split.
  - unfold Py.len. rewrite length_take, read_loop_length. simpl. lia.
  - apply Forall_take, read_loop_nonneg. constructor.
Qed.

Lemma frame_diffs_count_witness :
  let env := sample 2 1 (Some [(0, 1000)]) true [[3; 0]; [1; 5]; [1; 5]; [0; 0]] in
  let v := {| duration := 2; fps := 1 |} in
  0 <= total_frames_of v /\
  (Py.len (frame_diffs_of env v)
     = Z.min (Z.of_nat (length (frames env) - 1)) (total_frames_of v) /\
   Forall (fun d => 0 <= d) (frame_diffs_of env v)).
Proof.
  intros env v.
  assert (H : 0 <= total_frames_of v) by (vm_compute; discriminate).
  split; [exact H |]. exact (frame_diffs_count env v H).
Defined.

Example frame_diffs_cut :
  frame_diffs_of
    (sample 2 1 (Some [(0, 1000)]) true [[3; 0]; [1; 5]; [1; 5]; [0; 0]])
    {| duration := 2; fps := 1 |} = [7; 0].
Proof. reflexivity. Qed.

(** X10.  With a non-negative frame rate the conversion of line 44 keeps
    the order of its endpoints: every interval with [start <= end] in
    milliseconds becomes a frame range with [start <= end], and no
    interval is dropped or added. *)
Theorem converted_ranges_ordered (fps : Z) (ranges : list (Z * Z)) :
  0 <= fps -> Forall (fun r => r.1 <= r.2) ranges ->
  length (nonsilent_to_frames fps ranges) = length ranges /\
  Forall (fun r => r.1 <= r.2) (nonsilent_to_frames fps ranges).
Proof.
  intros Hfps Hord. unfold nonsilent_to_frames. split; [apply length_fmap |].
  apply Forall_fmap. eapply Forall_impl; [exact Hord |].
  intros [a b] Hab; cbn [fst snd] in *. by apply to_frame_mono.
Qed.

Lemma converted_ranges_ordered_witness :
  0 <= 25 /\ Forall (fun r : Z * Z => r.1 <= r.2) [(0, 750); (760, 790)] /\
  (length (nonsilent_to_frames 25 [(0, 750); (760, 790)])
     = length [(0, 750); (760, 790)] /\
   Forall (fun r : Z * Z => r.1 <= r.2)
     (nonsilent_to_frames 25 [(0, 750); (760, 790)])).
Proof.
  assert (H1 : 0 <= 25) by lia.
  assert (H2 : Forall (fun r : Z * Z => r.1 <= r.2) [(0, 750); (760, 790)])
    by (repeat constructor; simpl; lia).
  split; [exact H1 |]. split; [exact H2 |].
  exact (converted_ranges_ordered 25 [(0, 750); (760, 790)] H1 H2).
Defined.

(** * The caller, [show_highlight_extractor] *)

Section Caller.

Context (env : Env) (page : Page) (name : string).
Hypothesis Hupload : uploaded_file page = Some name.
Hypothesis Hbutton : button page = true.

Let video_path : string := (mkdtemp page ++ "/" ++ name)%string.
Let run := extract_highlight (with_video_path env video_path)
             (inject_Z (number_input page)) initial.

Lemma show_highlight_extractor_pressed :
  show_highlight_extractor env page blank =
    {| core := run.2;
       shown := [Title; Intro; Video video_path] ++
                match run.1 with
                | Return output_path =>
                    [Success; Video output_path; Download output_path]
                | Raise e => [ErrorMessage e]
                end;
       temp_dir := false |}.
Proof.
  unfold show_highlight_extractor, run, video_path.
  rewrite Hupload, Hbutton. cbn [core shown temp_dir show blank app].
  destruct (extract_highlight _ _ initial) as [[p | e] s']; reflexivity.
Qed.

(** X12.  The widget keeps the requested duration at one second or
    more, so for a video of at most one second (and a non-negative frame
    rate) the page can only show an error: no success message, no clip. *)
Theorem short_video_only_errors (v : Clip) :
  1 <= number_input page ->
  VideoFileClip env = Some v -> (duration v <= 1)%Q -> 0 <= fps_of v ->
  exists e,
    shown (show_highlight_extractor env page blank)
      = [Title; Intro; Video video_path; ErrorMessage e] /\
    output (core (show_highlight_extractor env page blank)) = None.
Proof.
  intros Hmin Hv Hshort Hrate.
  rewrite show_highlight_extractor_pressed. cbn [core shown temp_dir].
  assert (Hge : total_frames_of v
                <= highlight_frames_of (inject_Z (number_input page)) (fps_of v)).
  { rewrite <- highlight_frames_clamped. apply highlight_frames_mono; [done |].
    eapply Qle_trans; [exact Hshort |]. unfold Qle. simpl. lia. }
  destruct run as [[p | e] s'] eqn:Hrun; simpl.
  - exfalso. unfold run in Hrun.
    eapply (full_length_request_never_returns (with_video_path env video_path));
      [| exact Hge | exact Hrun]. exact Hv.
  - exists e. split; [reflexivity |]. unfold run in Hrun. revert Hrun.
    generalize (with_video_path env video_path) as env'.
    generalize (inject_Z (number_input page)) as hd. intros hd env'.
    walk env' hd v' r ltac:(intros [= <- <-]; reflexivity || discriminate).
Qed.

End Caller.

Lemma short_video_only_errors_witness :
  let env := sample 1 30 (Some [(0, 500)]) true (still 30) in
  let page := {| uploaded_file := Some "clip.mp4"%string; number_input := 1;
                 button := true; mkdtemp := "/tmp/up" |} in
  let v := {| duration := 1; fps := 30 |} in
  uploaded_file page = Some "clip.mp4"%string /\ button page = true /\
  1 <= number_input page /\ VideoFileClip env = Some v /\
  (duration v <= 1)%Q /\ 0 <= fps_of v /\
  exists e,
    shown (show_highlight_extractor env page blank)
      = [Title; Intro; Video "/tmp/up/clip.mp4"; ErrorMessage e] /\
    output (core (show_highlight_extractor env page blank)) = None.
Proof.
  intros env page v.
  assert (H1 : uploaded_file page = Some "clip.mp4"%string) by reflexivity.
  assert (H2 : button page = true) by reflexivity.
  assert (H3 : 1 <= number_input page) by (simpl; lia).
  assert (H4 : VideoFileClip env = Some v) by reflexivity.
  assert (H5 : (duration v <= 1)%Q) by (vm_compute; discriminate).
  assert (H6 : 0 <= fps_of v) by (vm_compute; discriminate).
  do 6 (split; [assumption |]).
  exact (short_video_only_errors env page "clip.mp4" H1 H2 v H3 H4 H5 H6).
Defined.

(** * emotion.py: the highlight reel *)

Section Reel.

Import Emotion.
Local Open Scope Q_scope.


Lemma ltb_spec (a b : Q) : reflect (a < b) (Py.ltb a b).
Proof.
  unfold Py.ltb. destruct (Qle_bool b a) eqn:H; simpl; constructor.
  - apply Qle_bool_iff in H. lra.
  - apply Qnot_le_lt. intros Hle. apply Qle_bool_iff in Hle. congruence.
Qed.

Lemma leb_spec (a b : Q) : reflect (a <= b) (Qle_bool a b).
Proof.
  destruct (Qle_bool a b) eqn:H; constructor.
  - by apply Qle_bool_iff.
  - intros Hle. apply Qle_bool_iff in Hle. congruence.
Qed.

Lemma py_max_spec (a b : Q) : (a <= b /\ py_max a b = b) \/ (b <= a /\ py_max a b = a).
Proof. unfold py_max. destruct (ltb_spec a b); [left | right]; split; (lra || done). Qed.

Lemma py_min_spec (a b : Q) : (a <= b /\ py_min a b = a) \/ (b <= a /\ py_min a b = b).
Proof. unfold py_min. destruct (ltb_spec b a); [right | left]; split; (lra || done). Qed.

Lemma merge_step_nil iv : merge_step [] iv = [iv].
Proof. reflexivity. Qed.

Lemma merge_step_snoc l x iv :
  merge_step (l ++ [x]) iv =
    if Qle_bool iv.1 x.2 then l ++ [(x.1, py_max x.2 iv.2)] else l ++ [x; iv].
Proof.
  unfold merge_step. rewrite last_snoc.
  destruct (Qle_bool iv.1 x.2).
  - rewrite length_app. simpl. replace (pred (length l + 1)) with (length l + 0)%nat by lia.
    rewrite insert_app_r. reflexivity.
  - by rewrite <- (assoc_L (++)).
Qed.


Lemma separated_snoc l x y :
  separated (l ++ [x]) -> x.2 < y.1 -> separated (l ++ [x; y]).
Proof.
  intros Hsep Hxy i a b Ha Hb.
  assert (Heq : l ++ [x; y] = (l ++ [x]) ++ [y]) by (by rewrite <- (assoc_L (++))).
  rewrite Heq in Ha, Hb. clear Heq.
  assert (Hlen : length (l ++ [x]) = S (length l)) by (rewrite length_app; simpl; lia).
  destruct (decide (S i < length (l ++ [x]))%nat) as [Hlt | Hge].
  - apply (Hsep i a b).
    + by rewrite lookup_app_l in Ha by lia.
    + by rewrite lookup_app_l in Hb by lia.
  - assert (Hi : i = length l).
    { apply lookup_lt_Some in Hb. rewrite length_app in Hb. simpl in Hb. lia. }
    subst i. rewrite lookup_app_l in Ha by lia.
    rewrite lookup_app_r in Ha by lia. rewrite Nat.sub_diag in Ha.
    rewrite lookup_app_r in Hb by lia. rewrite Hlen, Nat.sub_diag in Hb.
    simpl in Ha, Hb. by simplify_eq.
Qed.

Lemma separated_last l x y :
  separated (l ++ [x]) -> y.1 = x.1 -> separated (l ++ [y]).
Proof.
  intros Hsep Hy i a b Ha Hb.
  assert (Hi : (S i < length l + 1)%nat).
  { apply lookup_lt_Some in Hb. by rewrite length_app in Hb. }
  rewrite lookup_app_l in Ha by lia.
  destruct (decide (S i = length l)) as [Hlast | Hne].
  - rewrite lookup_app_r in Hb by lia. rewrite Hlast, Nat.sub_diag in Hb.
    simpl in Hb. injection Hb as <-. rewrite Hy.
    apply (Hsep i a x).
    + by rewrite lookup_app_l by lia.
    + rewrite lookup_app_r by lia. by rewrite Hlast, Nat.sub_diag.
  - rewrite lookup_app_l in Hb by lia.
    apply (Hsep i a b); by rewrite lookup_app_l by lia.
Qed.

Lemma merge_step_separated l iv : separated l -> separated (merge_step l iv).
Proof.
  intros Hsep. destruct l as [|x0 l0] using rev_ind.
  - rewrite merge_step_nil. intros [|i] a b Ha Hb; done.
  - clear IHl0. rewrite merge_step_snoc.
    destruct (leb_spec iv.1 x0.2) as [Hle | Hgt].
    + by apply (separated_last l0 x0).
    + apply separated_snoc; [done | lra].
Qed.

Lemma foldl_merge_separated times : forall l,
  separated l -> separated (foldl merge_step l times).
Proof.
  induction times as [|iv times IH]; intros l Hsep; simpl; [done |].
  by apply IH, merge_step_separated.
Qed.

(** X13.  Whatever intervals go in, consecutive merged intervals never
    touch or overlap: each one ends strictly before the next starts. *)
Theorem merged_times_separated (times : list (Q * Q)) (i : nat) (a b : Q * Q) :
  merge_times times !! i = Some a -> merge_times times !! S i = Some b ->
  a.2 < b.1.
Proof.
  apply (foldl_merge_separated (sorted times) []).
  intros [|j] x y Hx Hy; done.
Qed.

Lemma tuple_le_spec (a b : Q * Q) :
  tuple_le a b <-> a.1 < b.1 \/ (a.1 == b.1 /\ a.2 <= b.2).
Proof.
  unfold tuple_le, tuple_leb. rewrite orb_true_iff, andb_true_iff.
  rewrite Qeq_bool_iff, Qle_bool_iff.
  destruct (ltb_spec a.1 b.1); intuition (try discriminate; try lra).
Qed.

#[global] Instance tuple_le_total : Total tuple_le.
Proof.
  intros a b. rewrite !tuple_le_spec.
  destruct (Qlt_le_dec a.1 b.1); [by left; left |].
  destruct (Qlt_le_dec b.1 a.1); [by right; left |].
  destruct (Qlt_le_dec b.2 a.2); [right | left]; right; split; lra.
Qed.

#[global] Instance tuple_le_trans : Transitive tuple_le.
Proof.
  intros a b c. rewrite !tuple_le_spec.
  intros [? | [? ?]] [? | [? ?]]; [left | left | left | right; split]; lra.
Qed.

Lemma tuple_le_start (a b : Q * Q) : tuple_le a b -> a.1 <= b.1.
Proof. rewrite tuple_le_spec. intros [? | [? ?]]; lra. Qed.


Lemma covers_app l1 l2 x : covers (l1 ++ l2) x <-> covers l1 x \/ covers l2 x.
Proof.
  unfold covers. split.
  - intros (iv & Hin & Hx). apply elem_of_app in Hin as [? | ?]; [left | right]; eauto.
  - intros [(iv & Hin & Hx) | (iv & Hin & Hx)]; exists iv; split; try done;
      apply elem_of_app; auto.
Qed.

Lemma covers_singleton iv x : covers [iv] x <-> iv.1 <= x <= iv.2.
Proof.
  unfold covers. split.
  - intros (iv' & Hin & Hx). apply list_elem_of_singleton in Hin. by subst.
  - intros Hx. exists iv. split; [apply list_elem_of_singleton; done | done].
Qed.

Lemma covers_nil x : covers [] x <-> False.
Proof. unfold covers. split; [| done]. intros (iv & Hin & _). by apply elem_of_nil in Hin. Qed.


Lemma merge_step_covers l iv x :
  last_starts_by l iv.1 ->
  covers (merge_step l iv) x <-> covers l x \/ iv.1 <= x <= iv.2.
Proof.
  intros Hlast. destruct l as [|x0 l0] using rev_ind.
  - rewrite merge_step_nil, covers_singleton, covers_nil. tauto.
  - clear IHl0. rewrite merge_step_snoc.
    assert (H0 : x0.1 <= iv.1) by (apply Hlast; by rewrite last_snoc).
    destruct (leb_spec iv.1 x0.2) as [Hle | Hgt].
    + rewrite !covers_app, !covers_singleton. simpl.
      destruct (py_max_spec x0.2 iv.2) as [[? ->] | [? ->]];
        intuition (try lra).
      all: destruct (Qlt_le_dec x0.2 x); [right | left; right]; lra.
    + assert (Heq : l0 ++ [x0; iv] = (l0 ++ [x0]) ++ [iv])
        by (by rewrite <- (assoc_L (++))).
      rewrite Heq, covers_app, covers_singleton. tauto.
Qed.

Lemma merge_step_last l iv y :
  last_starts_by l iv.1 -> last (merge_step l iv) = Some y -> y.1 <= iv.1.
Proof.
  intros Hlast. destruct l as [|x0 l0] using rev_ind.
  - rewrite merge_step_nil. simpl. intros [= <-]. lra.
  - clear IHl0. rewrite merge_step_snoc.
    assert (H0 : x0.1 <= iv.1) by (apply Hlast; by rewrite last_snoc).
    destruct (leb_spec iv.1 x0.2) as [Hle | Hgt].
    + rewrite last_snoc. by intros [= <-].
    + assert (Heq : l0 ++ [x0; iv] = (l0 ++ [x0]) ++ [iv])
        by (by rewrite <- (assoc_L (++))).
      rewrite Heq, last_snoc. intros [= <-]. lra.
Qed.

Lemma foldl_merge_covers times : forall l x,
  StronglySorted tuple_le times ->
  Forall (fun t => last_starts_by l t.1) times ->
  covers (foldl merge_step l times) x <-> covers l x \/ covers times x.
Proof.
  induction times as [|iv times IH]; intros l x Hsorted Hl; simpl.
  - rewrite covers_nil. tauto.
  - apply StronglySorted_inv in Hsorted as [Hsorted Hiv].
    apply Forall_cons in Hl as [Hl0 Hl].
    rewrite IH; [| done |].
    + rewrite merge_step_covers by done.
      change (iv :: times) with ([iv] ++ times).
      rewrite covers_app, covers_singleton. tauto.
    + rewrite Forall_forall in Hiv. apply Forall_forall. intros t Ht y Hy.
      apply merge_step_last in Hy; [| done].
      pose proof (tuple_le_start _ _ (Hiv t Ht)). lra.
Qed.

Lemma covers_perm l1 l2 x : l1 ≡ₚ l2 -> covers l1 x -> covers l2 x.
Proof. intros Hp (iv & Hin & Hx). exists iv. split; [by rewrite <- Hp | done]. Qed.

(** X14.  Merging loses and adds nothing: a time lies in one of the
    merged intervals if and only if it lies in one of the intervals that
    went in. *)
Theorem merged_times_cover (times : list (Q * Q)) (x : Q) :
  covers (merge_times times) x <-> covers times x.
Proof.
  unfold merge_times.
  rewrite foldl_merge_covers.
  - rewrite covers_nil. unfold sorted. split.
    + intros [[] | H]. eapply covers_perm; [apply (merge_sort_Permutation tuple_le) | exact H].
    + intros H. right. eapply covers_perm; [symmetry; apply (merge_sort_Permutation tuple_le) | exact H].
  - apply StronglySorted_merge_sort; apply _.
  - apply Forall_forall. intros t _ y Hy. done.
Qed.

Lemma merge_step_nonempty l iv : merge_step l iv <> [].
Proof.
  destruct l as [|x0 l0] using rev_ind.
  - done.
  - rewrite merge_step_snoc. destruct (Qle_bool iv.1 x0.2); by destruct l0.
Qed.

Lemma foldl_merge_nonempty times : forall l, l <> [] -> foldl merge_step l times <> [].
Proof.
  induction times as [|iv times IH]; intros l Hl; simpl; [done |].
  apply IH, merge_step_nonempty.
Qed.

Lemma merge_times_nil (times : list (Q * Q)) : merge_times times = [] <-> times = [].
Proof.
  unfold merge_times, sorted. split.
  - intros Hnil. destruct (merge_sort tuple_le times) as [|iv l] eqn:Hs.
    + symmetry. apply Permutation_nil_l. rewrite <- Hs.
      apply (merge_sort_Permutation tuple_le).
    + simpl in Hnil. exfalso. revert Hnil. apply foldl_merge_nonempty, merge_step_nonempty.
  - intros ->. reflexivity.
Qed.

(** X15.  [generate_highlight_reel] returns the output path if and only
    if the clip opens, its frame rate is not zero, at least one key
    moment carries a selected emotion, and the clips can be written; in
    every other case it returns [None]. *)
Theorem reel_returns_iff (w : Footage) key_moments selected_emotions output_path :
  (generate_highlight_reel w key_moments selected_emotions output_path).1
    = Some output_path
  <-> exists c, clip w = Some c /\ ~ fps c == 0 /\
        (exists m, In m key_moments /\ selected selected_emotions m = true) /\
        writes w = true.
Proof.
  unfold generate_highlight_reel.
  destruct (clip w) as [c|]; [| split; [done | intros (c & ? & _); done]].
  set (matching := List.filter (selected selected_emotions) key_moments).
  assert (Hmatch : matching <> [] <->
            exists m, In m key_moments /\ selected selected_emotions m = true).
  { split.
    - intros Hne. unfold matching in Hne.
      destruct (List.filter (selected selected_emotions) key_moments)
        as [|m l] eqn:Hm; [done |].
      exists m. apply (filter_In (selected selected_emotions)). rewrite Hm. by left.
    - intros (m & Hin & Hsel) Hnil.
      assert (Hm : In m matching) by (apply filter_In; done).
      by rewrite Hnil in Hm. }
  destruct (Qeq_bool (fps c) 0) eqn:Hz; simpl.
  - apply Qeq_bool_iff in Hz. case_bool_decide as Hnil; simpl.
    + rewrite Hnil. simpl. split; [done |].
      intros (c' & _ & _ & Hex & _). by apply Hmatch in Hex.
    + split; [done |]. intros (c' & [= <-] & Hnz & _). done.
  - assert (Hnz : ~ fps c == 0).
    { intros Hq. apply Qeq_bool_iff in Hq. congruence. }
    case_bool_decide as Hm.
    + apply merge_times_nil, fmap_nil_inv in Hm. split; [done |].
      intros (c' & _ & _ & Hex & _). by apply Hmatch in Hex.
    + assert (Hne : matching <> []).
      { intros Hnil. apply Hm. by rewrite Hnil. }
      destruct (writes w); simpl; split; try done.
      * intros _. exists c. split_and!; try done. by apply Hmatch.
      * intros (c' & _ & _ & _ & ?). done.
Qed.


Lemma merge_step_within lo hi l iv :
  Forall (within lo hi) l -> within lo hi iv -> Forall (within lo hi) (merge_step l iv).
Proof.
  intros Hl Hiv. destruct l as [|x0 l0] using rev_ind.
  - rewrite merge_step_nil. by constructor.
  - clear IHl0. rewrite merge_step_snoc.
    apply Forall_app in Hl as [Hl0 Hx0].
    assert (Hx : within lo hi x0) by (by inversion Hx0).
    destruct Hx as [Hx1 Hx2]. destruct Hiv as [Hi1 Hi2].
    destruct (Qle_bool iv.1 x0.2).
    + apply Forall_app. split; [done |]. apply Forall_singleton.
      split; cbn [fst snd]; [done |].
      destruct (py_max_spec x0.2 iv.2) as [[? ->] | [? ->]]; done.
    + apply Forall_app. split; [done |].
      apply Forall_cons. split; [done |]. by apply Forall_singleton.
Qed.

Lemma merge_times_within lo hi times :
  Forall (within lo hi) times -> Forall (within lo hi) (merge_times times).
Proof.
  intros Hall. unfold merge_times.
  assert (Hs : Forall (within lo hi) (sorted times)).
  { unfold sorted. by rewrite (merge_sort_Permutation tuple_le). }
  revert Hs. generalize (sorted times) as ts.
  assert (Hnil : Forall (within lo hi) []) by constructor.
  revert Hnil. generalize (@nil (Q * Q)) as l.
  intros l Hl ts. revert l Hl.
  induction ts as [|iv ts IH]; intros l Hl Hts; simpl; [done |].
  apply Forall_cons in Hts as [Hiv Hts].
  apply IH; [| done]. by apply merge_step_within.
Qed.

Lemma window_within fps duration m : within 0 duration (window fps duration m).
Proof.
  unfold within, window. cbn [fst snd]. split.
  - destruct (py_max_spec (inject_Z (frame m) / fps - (5 # 2)) 0) as [[? ->] | [? ->]]; lra.
  - destruct (py_min_spec (inject_Z (frame m) / fps + (5 # 2)) duration)
      as [[? ->] | [? ->]]; lra.
Qed.

Lemma padding_double (iv : Q * Q) :
  2 * ((5 - (iv.2 - iv.1)) / 2) == 5 - (iv.2 - iv.1).
Proof. field. Qed.

Lemma pad_within duration iv :
  within 0 duration iv -> within 0 duration (pad duration iv).
Proof.
  intros [H1 H2]. unfold pad. destruct (Py.ltb (iv.2 - iv.1) 5); [| done].
  pose proof (padding_double iv) as Hp. revert Hp.
  generalize ((5 - (iv.2 - iv.1)) / 2) as padding. intros padding Hp.
  split; cbn [fst snd].
  - destruct (py_max_spec (iv.1 - padding) 0) as [[? ->] | [? ->]]; lra.
  - destruct (py_min_spec (iv.2 + padding) duration) as [[? ->] | [? ->]]; lra.
Qed.

(** X16.  Every clip that goes into the reel lies inside the video: it
    starts at 0 or later and ends at the duration or earlier, padding
    included. *)
Theorem reel_clips_within_video (w : Footage) key_moments selected_emotions output_path c :
  clip w = Some c ->
  Forall (fun iv => 0 <= iv.1 /\ iv.2 <= duration c)
         (generate_highlight_reel w key_moments selected_emotions output_path).2.
Proof.
  intros Hc. unfold generate_highlight_reel. rewrite Hc.
  destruct (_ && _); simpl; [constructor |].
  case_bool_decide; simpl; [constructor |].
  destruct (writes w); simpl; [| constructor].
  apply Forall_fmap. eapply Forall_impl.
  - apply (merge_times_within 0 (duration c)).
    apply Forall_fmap, Forall_forall. intros m _. apply window_within.
  - intros iv Hiv. by apply pad_within.
Qed.


Lemma merged_times_separated_witness :
  merge_times [(4, 6); (0, 2); (1, 3)] !! 0%nat = Some (0, 3) /\
  merge_times [(4, 6); (0, 2); (1, 3)] !! 1%nat = Some (4, 6) /\
  (0, 3).2 < (4, 6).1.
Proof.
  assert (H0 : merge_times [(4, 6); (0, 2); (1, 3)] !! 0%nat = Some (0, 3))
    by (vm_compute; reflexivity).
  assert (H1 : merge_times [(4, 6); (0, 2); (1, 3)] !! 1%nat = Some (4, 6))
    by (vm_compute; reflexivity).
  split; [exact H0 |]. split; [exact H1 |].
  exact (merged_times_separated [(4, 6); (0, 2); (1, 3)] 0 (0, 3) (4, 6) H0 H1).
Defined.

Lemma reel_clips_within_video_witness :
  let w := {| clip := Some {| duration := 10; fps := 2 |}; writes := true |} in
  let moments := [ {| frame := 2; labels := ["happy"%string] |};
                   {| frame := 19; labels := ["sad"%string] |} ] in
  clip w = Some {| duration := 10; fps := 2 |} /\
  Forall (fun iv => 0 <= iv.1 /\ iv.2 <= 10)
    (generate_highlight_reel w moments ["happy"%string; "sad"%string]
       "reel.mp4"%string).2.
Proof.
  intros w moments.
  assert (H : clip w = Some {| duration := 10; fps := 2 |}) by reflexivity.
  split; [exact H |].
  exact (reel_clips_within_video w moments ["happy"%string; "sad"%string]
           "reel.mp4"%string {| duration := 10; fps := 2 |} H).
Defined.

(** A moment one second into the video: the window is cut at 0, and
    the padded clip runs from 0 to 136/32 = 4.25 seconds. *)
Example reel_near_the_start :
  generate_highlight_reel
    {| clip := Some {| duration := 10; fps := 2 |}; writes := true |}
    [ {| frame := 2; labels := ["happy"%string] |} ] ["happy"%string]
    "reel.mp4"%string
  = (Some "reel.mp4"%string, [(0 # 1, 136 # 32)]).
Proof. vm_compute. reflexivity. Qed.


End Reel.

(** ** emotion.py: [analyze_footage] *)

Section Footage.
Import Emotion.

Lemma int_zero_iff (q : Q) : Py.int (q * 1) = 0 <-> (-1 < q < 1)%Q.
Proof.
  unfold Py.int. destruct q as [n d]. unfold Qlt. simpl.
  rewrite Z.mul_1_r, Pos.mul_1_r.
  rewrite Z.quot_small_iff by lia. lia.
Qed.

Lemma analyze_loop_none fps l :
  foldl (fun st read => st ≫= fun s => analyze_step fps s read) None l = None.
Proof. induction l as [|x l IH]; [done | exact IH]. Qed.

Lemma analyze_loop_raises fps l st :
  Py.int (fps * 1) = 0 -> l <> [] ->
  foldl (fun st read => st ≫= fun s => analyze_step fps s read) st l = None.
Proof.
  intros Hz Hl. destruct l as [|x l]; [done |]. cbn [foldl].
  destruct st as [[ms n]|]; [| apply analyze_loop_none].
  cbn [mbind option_bind].
  assert (analyze_step fps (ms, n) x = None) as ->.
  { unfold analyze_step. by rewrite Hz. }
  apply analyze_loop_none.
Qed.

Lemma analyze_loop_spec fps l :
  Py.int (fps * 1) <> 0 ->
  exists ms,
    foldl (fun st read => st ≫= fun s => analyze_step fps s read) (Some ([], 0)) l
      = Some (ms, Z.of_nat (length l)) /\
    (forall m, m ∈ ms <->
       1 <= frame m <= Z.of_nat (length l) /\
       (Py.int (fps * 1) | frame m) /\
       l !! Z.to_nat (frame m - 1) = Some (Some (labels m))) /\
    (forall i j a b, (i < j)%nat -> ms !! i = Some a -> ms !! j = Some b ->
       frame a < frame b).
Proof.
  intros Hrate. induction l as [|x l IH] using rev_ind.
  - exists []. split; [done |]. split.
    + intros m. split; [by intros ?%elem_of_nil | simpl; lia].
    + intros i j a b _ H. by rewrite lookup_nil in H.
  - destruct IH as (ms & Hrun & Hmem & Hsorted).
    rewrite foldl_app, Hrun. cbn [foldl mbind option_bind]. unfold analyze_step.
    destruct (Z.eqb_spec (Py.int (fps * 1)) 0) as [| _]; [done |].
    rewrite length_app. cbn [length].
    replace (Z.of_nat (length l + 1)) with (Z.of_nat (length l) + 1) by lia.
    set (n := Z.of_nat (length l)) in *.
    assert (Hold : forall m, 1 <= frame m <= n ->
              (l ++ [x]) !! Z.to_nat (frame m - 1) = l !! Z.to_nat (frame m - 1)).
    { intros m Hm. apply lookup_app_l. lia. }
    assert (Hnew : forall m, frame m = n + 1 ->
              (l ++ [x]) !! Z.to_nat (frame m - 1) = Some x).
    { intros m Hm. rewrite lookup_app_r by lia.
      replace (Z.to_nat (frame m - 1) - length l)%nat with 0%nat by lia. done. }
    assert (Hskip : forall ms',
      ms' = ms ->
      (forall m, frame m = n + 1 -> (Py.int (fps * 1) | frame m) ->
                 x <> Some (labels m)) ->
      forall m, m ∈ ms' <->
        1 <= frame m <= n + 1 /\ (Py.int (fps * 1) | frame m) /\
        (l ++ [x]) !! Z.to_nat (frame m - 1) = Some (Some (labels m))).
    { intros ms' -> Hno m. rewrite Hmem. split.
      - intros (Hr & Hd & Hl). split; [lia |]. split; [done |]. by rewrite Hold.
      - intros (Hr & Hd & Hl).
        destruct (decide (frame m = n + 1)) as [Hm | Hm].
        + rewrite Hnew in Hl by done. exfalso. apply (Hno m Hm Hd). congruence.
        + rewrite Hold in Hl by lia. split; [lia | done]. }
    destruct (Z.eqb_spec ((n + 1) mod Py.int (fps * 1)) 0) as [Hmod | Hmod].
    + apply Z.mod_divide in Hmod; [| done].
      destruct x as [emotions|].
      * eexists. split; [reflexivity |]. split.
        -- intros m. rewrite elem_of_app, list_elem_of_singleton, Hmem. split.
           ++ intros [(Hr & Hd & Hl) | ->].
              ** split; [lia |]. split; [done |]. by rewrite Hold.
              ** split; [cbn [frame]; lia |]. split; [exact Hmod |].
                 exact (Hnew {| frame := n + 1; labels := emotions |} eq_refl).
           ++ intros (Hr & Hd & Hl).
              destruct (decide (frame m = n + 1)) as [Hm | Hm].
              ** right. rewrite Hnew in Hl by done. destruct m as [f ls].
                 cbn [frame labels] in *. congruence.
              ** left. rewrite Hold in Hl by lia. split; [lia | done].
        -- intros i j a b Hij Ha Hb.
           assert (Hi : (i < length ms)%nat).
           { apply lookup_lt_Some in Hb. rewrite length_app in Hb. cbn [length] in Hb. lia. }
           rewrite lookup_app_l in Ha by done.
           destruct (decide (j < length ms)%nat) as [Hj | Hj].
           ++ rewrite lookup_app_l in Hb by done. exact (Hsorted i j a b Hij Ha Hb).
           ++ rewrite lookup_app_r in Hb by lia.
              destruct (j - length ms)%nat; [| done]. injection Hb as <-.
              cbn [frame]. apply list_elem_of_lookup_2, Hmem in Ha. lia.
      * exists ms. split; [done |]. split; [| done].
        apply Hskip; [done |]. intros m _ _. discriminate.
    + exists ms. split; [done |]. split; [| done].
      apply Hskip; [done |]. intros m Hm Hd. exfalso. apply Hmod.
      apply Z.mod_divide; [done |]. by rewrite <- Hm.
Qed.

(** X18.  [analyze_footage] raises exactly when the model loads, the
    capture delivers a frame and the frame rate it reports is strictly
    between -1 and 1, so that [int(fps * 1)] is 0 and the modulo of line
    45 divides by zero; a capture that did not open reports 0 and
    delivers no frame, and gives the empty list. *)
Theorem analyze_footage_raises_iff (c : Capture) :
  analyze_footage c = None <->
  loads c = true /\ reads c <> [] /\ (-1 < CAP_PROP_FPS c < 1)%Q.
Proof.
  unfold analyze_footage. rewrite <- int_zero_iff.
  destruct (loads c); [| by split; [| intros (? & _)]].
  destruct (Z.eq_dec (Py.int (CAP_PROP_FPS c * 1)) 0) as [Hz | Hnz].
  - destruct (reads c) as [|x l] eqn:Hl.
    + split; [done | by intros (_ & ? & _)].
    + rewrite analyze_loop_raises by done. done.
  - destruct (analyze_loop_spec (CAP_PROP_FPS c) (reads c) Hnz) as (ms & -> & _).
    split; [done | by intros (_ & _ & ?)].
Qed.

(** X19.  When the model loads and [analyze_footage] returns, the key
    moments are, in increasing order of frame number, exactly the frames
    that were classified without an exception and whose number, counted
    from 1, is a multiple of [int(fps * 1)]; each carries the labels of
    that frame. *)
Theorem key_moments_on_rate_multiples (c : Capture) (key_moments : list Moment) :
  loads c = true ->
  analyze_footage c = Some key_moments ->
  (forall m, m ∈ key_moments <->
     1 <= frame m <= Py.len (reads c) /\
     (Py.int (CAP_PROP_FPS c * 1) | frame m) /\
     reads c !! Z.to_nat (frame m - 1) = Some (Some (labels m))) /\
  (forall i j a b, (i < j)%nat ->
     key_moments !! i = Some a -> key_moments !! j = Some b -> frame a < frame b).
Proof.
  intros Hloads Hrun. unfold analyze_footage in Hrun. rewrite Hloads in Hrun.
  destruct (Z.eq_dec (Py.int (CAP_PROP_FPS c * 1)) 0) as [Hz | Hnz].
  - destruct (reads c) as [|x l] eqn:Hl.
    + injection Hrun as <-. split.
      * intros m. split; [by intros ?%elem_of_nil | unfold Py.len; simpl; lia].
      * intros i j a b _ H. by rewrite lookup_nil in H.
    + rewrite analyze_loop_raises in Hrun by done. done.
  - destruct (analyze_loop_spec (CAP_PROP_FPS c) (reads c) Hnz) as (ms & Hms & Hmem & Hsorted).
    rewrite Hms in Hrun. injection Hrun as <-. by split.
Qed.

Lemma key_moments_on_rate_multiples_witness :
  let c := {| CAP_PROP_FPS := 5 # 2;
              reads := [Some ["sad"]; Some ["happy"]; Some ["sad"]; None;
                        Some ["angry"]; Some ["happy"; "sad"]]%string;
              loads := true |} in
  let key_moments := [ {| frame := 2; labels := ["happy"]%string |};
                       {| frame := 6; labels := ["happy"; "sad"]%string |} ] in
  (forall m, m ∈ key_moments <->
     1 <= frame m <= Py.len (reads c) /\
     (Py.int (CAP_PROP_FPS c * 1) | frame m) /\
     reads c !! Z.to_nat (frame m - 1) = Some (Some (labels m))) /\
  (forall i j a b, (i < j)%nat ->
     key_moments !! i = Some a -> key_moments !! j = Some b -> frame a < frame b).
Proof.
  intros c key_moments.
  apply (key_moments_on_rate_multiples c key_moments); reflexivity.
Defined.

End Footage.

(** ** sceneoptimizer.py *)

Section Scenes.
Import SceneOptimizer.

Lemma remove_step_filtered durations m st p :
  exists tail, filtered_paths (remove_step durations m st p) = filtered_paths st ++ tail /\
    tail `sublist_of` [p] /\ (durations p = None -> tail = []).
Proof.
  unfold remove_step. destruct (durations p) as [d|]; simpl.
  - destruct (match previous_duration st with Some _ => _ | None => _ end).
    + exists [p]. split_and!; done.
    + exists []. rewrite app_nil_r. split_and!; [done | apply sublist_nil_l | done].
  - exists []. rewrite app_nil_r. split_and!; [done | apply sublist_nil_l | done].
Qed.

Lemma remove_step_warned durations m st p :
  warned (remove_step durations m st p)
    = warned st ++ (if opens durations p then [] else [p]).
Proof.
  unfold remove_step, opens. destruct (durations p); simpl; by rewrite ?app_nil_r.
Qed.

Lemma remove_step_kept durations m st p :
  exists tail, filtered_paths (remove_step durations m st p) = filtered_paths st ++ tail /\
    (tail = [] \/ (tail = [p] /\ opens durations p = true)).
Proof.
  unfold remove_step, opens. destruct (durations p) as [d|]; simpl.
  - destruct (match previous_duration st with Some _ => _ | None => _ end).
    + exists [p]. auto.
    + exists []. rewrite app_nil_r. auto.
  - exists []. rewrite app_nil_r. auto.
Qed.

Lemma foldl_remove_filtered durations m paths : forall st,
  exists tail,
    filtered_paths (foldl (remove_step durations m) st paths) = filtered_paths st ++ tail /\
    tail `sublist_of` paths /\
    Forall (fun p => opens durations p = true) tail /\
    warned (foldl (remove_step durations m) st paths)
      = warned st ++ List.filter (fun p => negb (opens durations p)) paths.
Proof.
  induction paths as [|p paths IH]; intros st; simpl.
  - exists []. rewrite !app_nil_r. split_and!; [done | done | constructor | done].
  - destruct (IH (remove_step durations m st p)) as (tail & Hf & Hsub & Hopen & Hw).
    rewrite Hf, Hw, remove_step_warned. clear Hf Hw IH.
    destruct (remove_step_kept durations m st p) as (t & -> & Ht).
    exists (t ++ tail). rewrite <- !(assoc_L (++)). split_and!.
    + done.
    + destruct Ht as [-> | [-> _]]; simpl; [by apply sublist_cons | by apply sublist_skip].
    + destruct Ht as [-> | [-> Hp]]; simpl; [done | by constructor].
    + by destruct (opens durations p).
Qed.

(** X20.  [remove_repeated_files] returns some of the given paths in
    their given order, each of a clip that opens, and warns about exactly
    the paths whose clip does not open, in their order. *)
Theorem filtered_paths_sublist durations video_paths min_duration :
  let r := remove_repeated_files durations video_paths min_duration in
  filtered_paths r `sublist_of` video_paths /\
  Forall (fun p => opens durations p = true) (filtered_paths r) /\
  warned r = List.filter (fun p => negb (opens durations p)) video_paths.
Proof.
  cbv zeta. unfold remove_repeated_files.
  destruct (foldl_remove_filtered durations min_duration video_paths
              {| filtered_paths := []; previous_duration := None; warned := [] |})
    as (tail & Hf & Hsub & Hopen & Hw).
  rewrite Hf, Hw. simpl. done.
Qed.

Lemma foldl_remove_unopened durations m prefix : forall st,
  Forall (fun p => opens durations p = false) prefix ->
  filtered_paths (foldl (remove_step durations m) st prefix) = filtered_paths st /\
  previous_duration (foldl (remove_step durations m) st prefix) = previous_duration st.
Proof.
  induction prefix as [|p prefix IH]; intros st Hall; simpl; [done |].
  apply Forall_cons in Hall as [Hp Hall].
  destruct (IH (remove_step durations m st p) Hall) as [-> ->].
  unfold remove_step. unfold opens in Hp. by destruct (durations p).
Qed.

Lemma remove_step_first durations m st p :
  previous_duration st = None -> opens durations p = true ->
  filtered_paths (remove_step durations m st p) = filtered_paths st ++ [p].
Proof.
  intros Hprev Hp. unfold remove_step. unfold opens in Hp.
  destruct (durations p); [| done]. simpl. by rewrite Hprev.
Qed.

(** X21.  The first path whose clip opens is always kept, and comes first
    in the result, whatever its duration and [min_duration]. *)
Theorem first_openable_is_kept durations min_duration prefix p rest :
  Forall (fun q => opens durations q = false) prefix ->
  opens durations p = true ->
  exists tail,
    filtered_paths (remove_repeated_files durations (prefix ++ p :: rest) min_duration)
      = p :: tail.
Proof.
  intros Hprefix Hp. unfold remove_repeated_files. rewrite foldl_app. simpl.
  set (st0 := {| filtered_paths := []; previous_duration := None; warned := [] |}).
  destruct (foldl_remove_unopened durations min_duration prefix st0 Hprefix) as [Hf Hprev].
  set (st1 := foldl (remove_step durations min_duration) st0 prefix) in *.
  destruct (foldl_remove_filtered durations min_duration rest
              (remove_step durations min_duration st1 p)) as (tail & Htail & _).
  rewrite Htail, remove_step_first by done. rewrite Hf. simpl.
  by exists tail.
Qed.

Lemma first_openable_is_kept_witness :
  let durations := fun p => if String.eqb p "a.mp4" then None else Some (10 # 1)%Q in
  exists tail,
    filtered_paths
      (remove_repeated_files durations
         (["a.mp4"%string] ++ "b.mp4"%string :: ["c.mp4"%string]) 4)
      = "b.mp4"%string :: tail.
Proof.
  intros durations.
  apply (first_openable_is_kept durations 4 ["a.mp4"%string] "b.mp4" ["c.mp4"%string]).
  - by repeat constructor.
  - reflexivity.
Defined.

Lemma drifting_tail m a ds : drifting m (a :: ds) -> drifting m ds.
Proof. intros H i x y Hx Hy. apply (H (S i) x y); done. Qed.

Lemma differs_false m d a : (Qabs (d - a) <= m)%Q -> differs m d a = false.
Proof.
  intros H. unfold differs, Py.ltb. apply negb_false_iff. by apply Qle_bool_iff.
Qed.

Lemma foldl_remove_drifting durations m paths : forall st a,
  previous_duration st = Some a ->
  drifting m (a :: omap durations paths) ->
  filtered_paths (foldl (remove_step durations m) st paths) = filtered_paths st.
Proof.
  induction paths as [|p paths IH]; intros st a Hprev Hdrift; simpl; [done |].
  simpl in Hdrift. unfold remove_step at 2.
  destruct (durations p) as [d|] eqn:Hp; simpl in Hdrift.
  - rewrite (IH _ d); simpl; [| done | by apply drifting_tail in Hdrift].
    rewrite Hprev. rewrite differs_false; [done |].
    apply (Hdrift 0%nat a d); done.
  - by rewrite (IH _ a).
Qed.

(** X22.  Each duration is compared with that of the clip just before it,
    not with that of the last clip kept: when every clip that opens
    differs from the previous one that opens by at most [min_duration],
    only the first is kept, however far the durations drift in total. *)
Theorem drifting_durations_keep_one durations video_paths min_duration :
  drifting min_duration (omap durations video_paths) ->
  filtered_paths (remove_repeated_files durations video_paths min_duration)
    = take 1 (List.filter (opens durations) video_paths).
Proof.
  unfold remove_repeated_files.
  set (st0 := {| filtered_paths := []; previous_duration := None; warned := [] |}).
  assert (Hst0 : filtered_paths st0 = [] /\ previous_duration st0 = None) by done.
  revert Hst0. generalize st0. clear st0.
  induction video_paths as [|p paths IH]; intros st [Hf Hprev] Hdrift; simpl.
  - done.
  - unfold opens at 1. unfold remove_step at 2.
    simpl in Hdrift. destruct (durations p) as [d|] eqn:Hp; simpl in *.
    + rewrite Hprev, Hf. simpl.
      rewrite (foldl_remove_drifting _ _ _ _ d); [| done | done]. simpl.
      by rewrite take_0.
    + apply IH; done.
Qed.

Lemma drifting_durations_keep_one_witness :
  let durations := fun p =>
    if String.eqb p "a.mp4" then Some (10 # 1)%Q
    else if String.eqb p "b.mp4" then Some (13 # 1)%Q
    else if String.eqb p "c.mp4" then Some (16 # 1)%Q
    else None in
  filtered_paths
    (remove_repeated_files durations ["a.mp4"; "x.mp4"; "b.mp4"; "c.mp4"]%string 4)
    = ["a.mp4"%string].
Proof.
  intros durations.
  apply (drifting_durations_keep_one durations
           ["a.mp4"; "x.mp4"; "b.mp4"; "c.mp4"]%string 4).
  intros [|[|[|i]]] a b Ha Hb; simpl in Ha, Hb; simplify_eq;
    unfold Qle; simpl; lia.
Defined.

Lemma filter_length_mono {A} (f g : A -> bool) (l : list A) :
  (forall x, f x = true -> g x = true) ->
  (length (List.filter f l) <= length (List.filter g l))%nat.
Proof.
  intros Hfg. induction l as [|x l IH]; simpl; [done |].
  destruct (f x) eqn:Hf.
  - rewrite (Hfg x Hf). simpl. lia.
  - destruct (g x); simpl; lia.
Qed.

(** Silent means: strictly more than nine values in ten are below the
    threshold. *)
Lemma Qdiv_gt_nine_tenths (c n : Z) :
  0 <= c <= n ->
  Py.ltb (9 # 10) (inject_Z c / inject_Z n) = true <-> 9 * n < 10 * c.
Proof.
  intros Hcn. unfold Py.ltb. rewrite negb_true_iff.
  destruct n as [|p|p]; [| | lia].
  - assert (c = 0) as -> by lia. split; [intros H; vm_compute in H; discriminate | lia].
  - assert (Heq : (inject_Z c / inject_Z (Z.pos p) == c # p)%Q).
    { unfold Qdiv, Qinv, Qmult, inject_Z, Qeq. simpl. lia. }
    destruct (Qle_bool (inject_Z c / inject_Z (Z.pos p)) (9 # 10)) eqn:Hle.
    + apply Qle_bool_iff in Hle. rewrite Heq in Hle.
      unfold Qle in Hle. simpl in Hle. split; [done | lia].
    + split; [| done]. intros _.
      assert (Hnle : ~ (inject_Z c / inject_Z (Z.pos p) <= 9 # 10)%Q).
      { intros H. apply Qle_bool_iff in H. congruence. }
      rewrite Heq in Hnle. unfold Qle in Hnle. simpl in Hnle. lia.
Qed.

Lemma filter_length_le {A} (f : A -> bool) (l : list A) :
  (length (List.filter f l) <= length l)%nat.
Proof. induction l as [|x l IH]; simpl; [done |]. destruct (f x); simpl; lia. Qed.

Lemma is_scene_silent_count db_energy thr :
  is_scene_silent db_energy thr = true <->
  9 * Py.len db_energy
    < 10 * Py.len (List.filter (fun x => Py.ltb x thr) db_energy).
Proof.
  unfold is_scene_silent. apply Qdiv_gt_nine_tenths.
  pose proof (filter_length_le (fun x => Py.ltb x thr) db_energy).
  unfold Py.len. lia.
Qed.

Lemma below_threshold_mono db_energy thr thr' :
  (thr <= thr')%Q ->
  Py.len (List.filter (fun x => Py.ltb x thr) db_energy)
    <= Py.len (List.filter (fun x => Py.ltb x thr') db_energy).
Proof.
  intros Hthr. unfold Py.len.
  apply inj_le, filter_length_mono. intros x Hx.
  unfold Py.ltb in *. apply negb_true_iff in Hx. apply negb_true_iff.
  destruct (Qle_bool thr' x) eqn:Hle; [| done].
  apply Qle_bool_iff in Hle.
  assert (Hc : (thr <= x)%Q) by lra. apply Qle_bool_iff in Hc. congruence.
Qed.

(** X23.  A scene that is silent at one threshold is silent at every
    higher threshold. *)
Theorem silence_grows_with_threshold db_energy thr thr' :
  (thr <= thr')%Q ->
  is_scene_silent db_energy thr = true -> is_scene_silent db_energy thr' = true.
Proof.
  intros Hthr. rewrite !is_scene_silent_count. intros Hsilent.
  pose proof (below_threshold_mono db_energy thr thr' Hthr). lia.
Qed.

Lemma silence_grows_with_threshold_witness :
  is_scene_silent [-50 # 1; -40 # 1]%Q (-30 # 1) = true.
Proof.
  apply (silence_grows_with_threshold [-50 # 1; -40 # 1]%Q (-35 # 1) (-30 # 1)).
  - unfold Qle. simpl. lia.
  - reflexivity.
Defined.

Lemma numbered_cons j x l : numbered j (x :: l) = (j, x) :: numbered (S j) l.
Proof.
  unfold numbered. simpl. rewrite Nat.add_0_r. f_equal.
  apply imap_ext. intros i y _. simpl. f_equal. lia.
Qed.

Lemma numbered_enumerate l : Py.enumerate l = numbered 0 l.
Proof. reflexivity. Qed.

Lemma numbered_fst j l p : In p (numbered j l) -> (j <= p.1 < j + length l)%nat.
Proof.
  revert j. induction l as [|x l IH]; intros j; [intros [] |].
  rewrite numbered_cons. intros [<- | Hin]; simpl; [lia |].
  apply IH in Hin. lia.
Qed.

Lemma audible_ext d d' a thr i :
  d !! S i = d' !! S i -> audible d a thr i = audible d' a thr i.
Proof. intros H. unfold audible, heard. destruct (a i); by rewrite ?H. Qed.

Lemma kept_ext d d' a thr l :
  (forall p, In p l -> d !! S p.1 = d' !! S p.1) -> kept d a thr l = kept d' a thr l.
Proof.
  intros H. unfold kept. f_equal. apply List.filter_ext_in.
  intros p Hp. by apply audible_ext, H.
Qed.

Lemma scene_loop_next a thr l : forall j st st',
  scene_loop a thr (numbered j l) st = Next st' ->
  (forall k, disk st' !! k =
     if bool_decide (j < k <= j + length l)%nat then None else disk st !! k) /\
  processed_clips st' = processed_clips st ++ kept (disk st) a thr (numbered j l).
Proof.
  induction l as [|x l IH]; intros j st st'.
  - simpl. intros [= <-]. split.
    + intros k. rewrite bool_decide_eq_false_2; [done | lia].
    + unfold kept. simpl. by rewrite app_nil_r.
  - rewrite numbered_cons. cbn [scene_loop].
    unfold kept. cbn [List.filter]. unfold audible at 1, heard at 1. cbn [fst].
    unfold extract_audio.
    destruct (a j) as [|[w|]|w] eqn:Ha; try discriminate.
    + (* no audio track *)
      destruct (disk st !! S j) as [[db|]|] eqn:Hd; try discriminate.
      * intros Hrun. apply IH in Hrun as [Hdisk Hclips]. cbn [disk processed_clips] in *.
        split.
        -- intros k. rewrite Hdisk. cbn [length].
           destruct (decide (k = S j)) as [-> |Hk].
           ++ rewrite lookup_delete_eq.
              rewrite (bool_decide_eq_false_2 (S j < S j <= _)%nat) by lia.
              rewrite bool_decide_eq_true_2 by lia. done.
           ++ rewrite lookup_delete_ne by done.
              repeat case_bool_decide; try done; lia.
        -- rewrite Hclips.
           rewrite (kept_ext (delete (S j) (disk st)) (disk st)).
           2:{ intros p Hp. apply numbered_fst in Hp.
               rewrite lookup_delete_ne by lia. done. }
           unfold kept.
           destruct (is_scene_silent db thr); cbn [negb fmap list_fmap snd];
             [done | by rewrite <- app_assoc].
      * intros Hrun. apply IH in Hrun as [Hdisk Hclips]. cbn [disk processed_clips] in *.
        split.
        -- intros k. rewrite Hdisk. cbn [length].
           destruct (decide (k = S j)) as [-> |Hk].
           ++ rewrite (bool_decide_eq_false_2 (S j < S j <= _)%nat) by lia.
              rewrite bool_decide_eq_true_2 by lia. done.
           ++ repeat case_bool_decide; try done; lia.
        -- rewrite Hclips. done.
    + (* a file is written *)
      rewrite lookup_insert_eq.
      destruct w as [db|]; try discriminate.
      intros Hrun. apply IH in Hrun as [Hdisk Hclips]. cbn [disk processed_clips] in *.
      split.
      * intros k. rewrite Hdisk. cbn [length].
        destruct (decide (k = S j)) as [-> |Hk].
        -- rewrite lookup_delete_eq.
           rewrite (bool_decide_eq_false_2 (S j < S j <= _)%nat) by lia.
           rewrite bool_decide_eq_true_2 by lia. done.
        -- rewrite lookup_delete_ne, lookup_insert_ne by done.
           repeat case_bool_decide; try done; lia.
      * rewrite Hclips.
        rewrite (kept_ext (delete (S j) (<[S j := Some db]> (disk st))) (disk st)).
        2:{ intros p Hp. apply numbered_fst in Hp.
            rewrite lookup_delete_ne, lookup_insert_ne by lia. done. }
        unfold kept.
        destruct (is_scene_silent db thr); cbn [negb fmap list_fmap snd];
          [done | by rewrite <- app_assoc].
Qed.

Lemma scene_loop_raised a thr l : forall j st d,
  (forall i partial, a i <> WriteRaises partial) ->
  scene_loop a thr (numbered j l) st = Raised d ->
  exists i, (j <= i < j + length l)%nat /\ d !! S i = Some None.
Proof.
  induction l as [|x l IH]; intros j st d Hw; [discriminate |].
  rewrite numbered_cons. cbn [scene_loop]. unfold extract_audio.
  destruct (a j) as [|p|w] eqn:Ha; [| by destruct (Hw j p) |].
  - destruct (disk st !! S j) as [[db|]|] eqn:Hd.
    + intros Hrun. apply IH in Hrun as (i & Hi & Hrun); [| done].
      exists i. cbn [length]. split; [lia | done].
    + intros [= <-]. exists j. cbn [length]. split; [lia | done].
    + intros Hrun. apply IH in Hrun as (i & Hi & Hrun); [| done].
      exists i. cbn [length]. split; [lia | done].
  - rewrite lookup_insert_eq. destruct w as [db|].
    + intros Hrun. apply IH in Hrun as (i & Hi & Hrun); [| done].
      exists i. cbn [length]. split; [lia | done].
    + intros [= <-]. exists j. cbn [length]. split; [lia |].
      by rewrite lookup_insert_eq.
Qed.

Lemma scene_loop_threshold a thr thr' l : forall st st',
  disk st = disk st' ->
  match scene_loop a thr l st, scene_loop a thr' l st' with
  | Next st1, Next st1' => disk st1 = disk st1'
  | Raised d, Raised d' => d = d'
  | _, _ => False
  end.
Proof.
  induction l as [|[i x] l IH]; intros st st' Hd; [done |].
  cbn [scene_loop]. rewrite <- Hd.
  destruct (extract_audio (a i) (S i) (disk st)) as [d|d]; [done |].
  destruct (d !! S i) as [[db|]|]; [| done |]; by apply IH.
Qed.

Lemma filter_sublist_mono {A} (f g : A -> bool) (l : list A) :
  (forall x, f x = true -> g x = true) ->
  List.filter f l `sublist_of` List.filter g l.
Proof.
  intros Hfg. induction l as [|x l IH]; simpl; [done |].
  destruct (f x) eqn:Hf.
  - rewrite (Hfg x Hf). by constructor.
  - destruct (g x); [by constructor | done].
Qed.

Lemma audible_threshold d a thr thr' i :
  (thr <= thr')%Q -> audible d a thr' i = true -> audible d a thr i = true.
Proof.
  intros Hthr. unfold audible. destruct (heard d a i) as [[db|]|]; try done.
  rewrite !negb_true_iff. intros H'.
  destruct (is_scene_silent db thr) eqn:Hs; [| done].
  apply is_scene_silent_count in Hs.
  apply not_true_iff_false in H'. destruct H'. apply is_scene_silent_count.
  pose proof (below_threshold_mono db thr thr' Hthr). lia.
Qed.

Lemma kept_threshold d a thr thr' l :
  (thr <= thr')%Q -> kept d a thr' l `sublist_of` kept d a thr l.
Proof.
  intros Hthr. unfold kept. apply fmap_sublist, filter_sublist_mono.
  intros p. by apply audible_threshold.
Qed.

Lemma process_video_finishes v d thr e :
  process_video v d thr = e -> raised e = false ->
  exists scenes st,
    detect_scenes v = Some scenes /\
    scene_loop (audio v) thr (Py.enumerate scenes)
      {| disk := d; processed_clips := [] |} = Next st /\
    files e = disk st /\
    error_shown e = bool_decide (processed_clips st = []) /\
    written e = if bool_decide (processed_clips st = []) then None
                else Some (processed_clips st).
Proof.
  intros <-. unfold process_video.
  destruct (detect_scenes v) as [scenes|]; [| done].
  destruct (VideoFileClip v); [| done].
  destruct (scene_loop _ _ _ _) as [st|d'] eqn:Hloop; [| done].
  destruct (processed_clips st) as [|c cs] eqn:Hc.
  - intros _. exists scenes, st. by rewrite Hc.
  - destruct (write_videofile v); [| done].
    intros _. exists scenes, st. by rewrite Hc.
Qed.

(** X24.  A call of [process_video] that does not raise leaves no file
    [temp_scene_<n>.wav] for any scene number [n] of the video, whether it
    wrote the file itself or found it there, and leaves every other file
    of the directory as it was. *)
Theorem temp_scene_files_removed v d thr scenes :
  detect_scenes v = Some scenes ->
  raised (process_video v d thr) = false ->
  forall n,
    files (process_video v d thr) !! n =
    if bool_decide (1 <= n <= length scenes)%nat then None else d !! n.
Proof.
  intros Hs Hr n.
  destruct (process_video_finishes v d thr _ eq_refl Hr)
    as (scenes' & st & Hs' & Hloop & -> & _).
  assert (scenes' = scenes) as -> by congruence.
  rewrite numbered_enumerate in Hloop.
  apply scene_loop_next in Hloop as [Hdisk _]. rewrite Hdisk. cbn [disk].
  repeat case_bool_decide; try done; lia.
Qed.

Lemma temp_scene_files_removed_witness :
  let scenes := [(0 # 1, 1 # 1); (1 # 1, 2 # 1)]%Q in
  let v := {| detect_scenes := Some scenes;
              VideoFileClip := true;
              audio := fun i => if (i =? 0)%nat then Writes (Some [(-50 # 1)%Q]) else NoAudio;
              write_videofile := true |} in
  let d : Disk := {[ 2%nat := Some [(0 # 1)%Q]; 7%nat := None ]} in
  files (process_video v d (-35 # 1)) !! 2%nat = None /\
  files (process_video v d (-35 # 1)) !! 7%nat = Some None.
Proof.
  intros scenes v d. split.
  - apply (temp_scene_files_removed v d (-35 # 1) scenes eq_refl eq_refl 2%nat).
  - apply (temp_scene_files_removed v d (-35 # 1) scenes eq_refl eq_refl 7%nat).
Defined.

(** X25.  When [process_video] does not raise, the scenes it writes are
    the scenes whose silence check found a file that is not silent, in
    the order of the video: the file the scene's audio was written to, or,
    for a scene without an audio track, a file of that name that was
    already on disk.  When there is no such scene nothing is written and
    the error message is shown. *)
Theorem written_scenes_are_the_audible_ones v d thr scenes :
  detect_scenes v = Some scenes ->
  raised (process_video v d thr) = false ->
  let clips := kept d (audio v) thr (Py.enumerate scenes) in
  written (process_video v d thr) =
    (if bool_decide (clips = []) then None else Some clips) /\
  error_shown (process_video v d thr) = bool_decide (clips = []).
Proof.
  intros Hs Hr clips.
  destruct (process_video_finishes v d thr _ eq_refl Hr)
    as (scenes' & st & Hs' & Hloop & _ & -> & ->).
  assert (scenes' = scenes) as -> by congruence.
  rewrite numbered_enumerate in Hloop.
  apply scene_loop_next in Hloop as [_ Hclips]. cbn [disk processed_clips app] in Hclips.
  rewrite Hclips. done.
Qed.

Lemma written_scenes_are_the_audible_ones_witness :
  let scenes := [(0 # 1, 1 # 1); (1 # 1, 2 # 1); (2 # 1, 3 # 1)]%Q in
  let v := {| detect_scenes := Some scenes;
              VideoFileClip := true;
              audio := fun i => if (i =? 0)%nat then Writes (Some [(-50 # 1)%Q])
                                else if (i =? 1)%nat then NoAudio
                                else Writes (Some [(-50 # 1); (-10 # 1)]%Q);
              write_videofile := true |} in
  let d : Disk := {[ 2%nat := Some [(0 # 1)%Q] ]} in
  written (process_video v d (-35 # 1)) = Some [(1 # 1, 2 # 1); (2 # 1, 3 # 1)]%Q /\
  error_shown (process_video v d (-35 # 1)) = false.
Proof.
  intros scenes v d.
  exact (written_scenes_are_the_audible_ones v d (-35 # 1) scenes eq_refl eq_refl).
Defined.

(** X26.  Raising the silence threshold never adds a scene: the scenes
    written at the higher threshold are, in order, among those written at
    the lower one on the same video and disk. *)
Theorem higher_threshold_keeps_fewer v d thr thr' clips' :
  (thr <= thr')%Q ->
  written (process_video v d thr') = Some clips' ->
  exists clips,
    written (process_video v d thr) = Some clips /\ clips' `sublist_of` clips.
Proof.
  intros Hthr. unfold process_video.
  destruct (detect_scenes v) as [scenes|]; [| done].
  destruct (VideoFileClip v); [| done].
  pose proof (scene_loop_threshold (audio v) thr thr' (Py.enumerate scenes)
                {| disk := d; processed_clips := [] |}
                {| disk := d; processed_clips := [] |} eq_refl) as Hsame.
  destruct (scene_loop (audio v) thr' _ _) as [st'|] eqn:Hloop'; [| done].
  destruct (scene_loop (audio v) thr _ _) as [st|] eqn:Hloop; [| done].
  rewrite numbered_enumerate in Hloop, Hloop'.
  apply scene_loop_next in Hloop as [_ Hc], Hloop' as [_ Hc'].
  cbn [disk processed_clips app] in Hc, Hc'.
  pose proof (kept_threshold d (audio v) thr thr' (numbered 0 scenes) Hthr) as Hsub.
  rewrite <- Hc, <- Hc' in Hsub.
  destruct (processed_clips st') as [|c' cs']; [done |].
  destruct (write_videofile v); [| done].
  cbn [written]. intros [= <-].
  destruct (processed_clips st) as [|c cs].
  - by apply sublist_nil_r in Hsub.
  - cbn [written]. by eexists.
Qed.

Lemma higher_threshold_keeps_fewer_witness :
  let scenes := [(0 # 1, 1 # 1); (1 # 1, 2 # 1)]%Q in
  let v := {| detect_scenes := Some scenes;
              VideoFileClip := true;
              audio := fun i => if (i =? 0)%nat then Writes (Some [(-50 # 1)%Q])
                                else Writes (Some [(-20 # 1)%Q]);
              write_videofile := true |} in
  exists clips,
    written (process_video v ∅ (-60 # 1)) = Some clips /\
    [(1 # 1, 2 # 1)]%Q `sublist_of` clips.
Proof.
  intros scenes v.
  apply (higher_threshold_keeps_fewer v ∅ (-60 # 1) (-35 # 1));
    [unfold Qle; simpl; lia | reflexivity].
Defined.

(** X27.  When the scenes are detected, the video opens, every scene is
    cut and its audio written without an exception and the output can be
    written, a call that raises does so in the silence check of some
    scene, and that scene's [temp_scene_<n>.wav] is still on disk
    afterwards: the removal of line 97 is not reached. *)
Theorem failed_silence_check_leaves_file v d thr scenes :
  detect_scenes v = Some scenes ->
  VideoFileClip v = true ->
  write_videofile v = true ->
  (forall i partial, audio v i <> WriteRaises partial) ->
  raised (process_video v d thr) = true ->
  exists n, (1 <= n <= length scenes)%nat /\
    files (process_video v d thr) !! n = Some None.
Proof.
  intros Hs Ho Hw Ha. unfold process_video. rewrite Hs, Ho, Hw.
  destruct (scene_loop _ _ _ _) as [st|d'] eqn:Hloop.
  - by destruct (processed_clips st).
  - intros _. rewrite numbered_enumerate in Hloop.
    apply scene_loop_raised in Hloop as (i & Hi & Hd'); [| done].
    exists (S i). split; [lia | done].
Qed.

Lemma failed_silence_check_leaves_file_witness :
  let scenes := [(0 # 1, 1 # 1); (1 # 1, 2 # 1)]%Q in
  let v := {| detect_scenes := Some scenes;
              VideoFileClip := true;
              audio := fun i => if (i =? 0)%nat then Writes (Some [(-20 # 1)%Q])
                                else Writes None;
              write_videofile := true |} in
  exists n, (1 <= n <= 2)%nat /\
    files (process_video v ∅ (-35 # 1)) !! n = Some None.
Proof.
  intros scenes v.
  apply (failed_silence_check_leaves_file v ∅ (-35 # 1) scenes);
    [reflexivity | reflexivity | reflexivity | | reflexivity].
  intros i partial. simpl. destruct (i =? 0)%nat; discriminate.
Defined.

End Scenes.

(** ** emotion_processor.py *)

Section MaxBy.
Import EmotionProcessor.
Context {A K : Type} (ltb : K -> K -> bool) (lt : K -> K -> Prop) (key : A -> K).
Hypothesis ltb_lt : forall a b, ltb a b = true <-> lt a b.
Hypothesis lt_trans : forall a b c, lt a b -> lt b c -> lt a c.
Hypothesis lt_weak : forall a b c, ~ lt a b -> lt a c -> lt b c.

Lemma max_by_snoc items x :
  max_by ltb key (items ++ [x]) =
  match max_by ltb key items with
  | None => Some x
  | Some m => if ltb (key m) (key x) then Some x else Some m
  end.
Proof. unfold max_by. by rewrite foldl_app. Qed.

Lemma max_by_first_max items :
  match max_by ltb key items with
  | Some m => first_max lt key items m
  | None => items = []
  end.
Proof.
  induction items as [|x items IH] using rev_ind; [done |].
  rewrite max_by_snoc.
  destruct (max_by ltb key items) as [m|].
  - destruct IH as (before & after & -> & Hb & Ha).
    destruct (ltb (key m) (key x)) eqn:Hlt.
    + apply ltb_lt in Hlt.
      exists (before ++ m :: after), []. split; [done |]. split; [| done].
      apply Forall_app. split; [| constructor].
      * eapply Forall_impl; [exact Hb |]. intros y Hy. simpl in *. exact (lt_trans _ _ _ Hy Hlt).
      * done.
      * eapply Forall_impl; [exact Ha |]. intros y Hy. simpl in *. exact (lt_weak _ _ _ Hy Hlt).
    + exists before, (after ++ [x]). split; [by rewrite <- app_assoc |].
      split; [done |]. apply Forall_app. split; [done |].
      constructor; [| done]. intros Hlt'. apply ltb_lt in Hlt'. congruence.
  - subst items. exists [], []. done.
Qed.

End MaxBy.

Section Processor.
Import EmotionProcessor.

Lemma first_max_elem {A K} (lt : K -> K -> Prop) (key : A -> K) items m :
  first_max lt key items m -> m ∈ items.
Proof. intros (before & after & -> & _). set_solver. Qed.

Lemma first_max_largest {A K} (lt : K -> K -> Prop) (key : A -> K) items m x :
  (forall a b, lt a b -> ~ lt b a) ->
  first_max lt key items m -> x ∈ items -> ~ lt (key m) (key x).
Proof.
  intros Hasym (before & after & -> & Hb & Ha) Hx.
  rewrite elem_of_app, elem_of_cons in Hx.
  rewrite Forall_forall in Hb, Ha.
  destruct Hx as [Hx | [-> | Hx]].
  - apply Hasym. by apply Hb.
  - intros H. by apply (Hasym _ _ H).
  - by apply Ha.
Qed.

Lemma read_step_spec frames :
  let st := foldl read_step ([], 0%nat) frames in
  st.2 = length frames /\
  length st.1 = ((length frames + 9) / 10)%nat /\
  forall k, st.1 !! k = detect_emotion_from_image <$> frames !! (10 * k)%nat.
Proof.
  induction frames as [|x frames IH] using rev_ind; [by intros st; split_and!; [| | intros k; rewrite !lookup_nil] |].
  intros st. subst st. rewrite foldl_app. cbn [foldl]. cbv zeta in IH.
  destruct (foldl read_step ([], 0%nat) frames) as [emotions frame_count].
  cbn [fst snd] in IH. destruct IH as (-> & Hlen & Hlook).
  unfold read_step. cbn [fst snd]. rewrite length_app. cbn [length].
  destruct (Nat.eqb_spec (length frames mod 10) 0) as [Hmod | Hmod].
  - split; [lia |]. split.
    + rewrite length_app. cbn [length]. rewrite Hlen.
      pose proof (Nat.div_mod_eq (length frames) 10).
      pose proof (Nat.div_mod_eq (length frames + 9) 10).
      pose proof (Nat.div_mod_eq (length frames + 1 + 9) 10).
      pose proof (Nat.mod_upper_bound (length frames + 9) 10).
      pose proof (Nat.mod_upper_bound (length frames + 1 + 9) 10).
      lia.
    + intros k.
      assert (Hq : length frames = (10 * length emotions)%nat).
      { rewrite Hlen. pose proof (Nat.div_mod_eq (length frames) 10).
        pose proof (Nat.div_mod_eq (length frames + 9) 10).
        pose proof (Nat.mod_upper_bound (length frames + 9) 10). lia. }
      destruct (Nat.lt_trichotomy k (length emotions)) as [Hk | [-> | Hk]].
      * rewrite !lookup_app_l by lia. apply Hlook.
      * rewrite lookup_app_r by lia. rewrite lookup_app_r by lia.
        rewrite Nat.sub_diag. replace (10 * length emotions - length frames)%nat with 0%nat by lia.
        done.
      * rewrite !lookup_ge_None_2; [done | |]; rewrite length_app; cbn [length]; lia.
  - split; [lia |]. split.
    + rewrite Hlen.
      pose proof (Nat.div_mod_eq (length frames) 10).
      pose proof (Nat.div_mod_eq (length frames + 9) 10).
      pose proof (Nat.div_mod_eq (length frames + 1 + 9) 10).
      pose proof (Nat.mod_upper_bound (length frames) 10).
      pose proof (Nat.mod_upper_bound (length frames + 9) 10).
      pose proof (Nat.mod_upper_bound (length frames + 1 + 9) 10).
      lia.
    + intros k. rewrite Hlook.
      destruct (decide (10 * k < length frames)%nat) as [Hk | Hk].
      * by rewrite lookup_app_l by lia.
      * rewrite !lookup_ge_None_2; [done | |]; rewrite ?length_app; cbn [length]; [| lia].
        pose proof (Nat.div_mod_eq (length frames) 10).
        assert (10 * k <> length frames)%nat; [| lia].
        intros Heq. apply Hmod. rewrite <- Heq.
        rewrite Nat.mul_comm. apply Nat.Div0.mod_mul.
Qed.

Lemma nat_lt_weak (a b c : nat) : ~ (a < b)%nat -> (a < c)%nat -> (b < c)%nat.
Proof. lia. Qed.

Lemma nat_lt_asym (a b : nat) : (a < b)%nat -> ~ (b < a)%nat.
Proof. lia. Qed.

Lemma Qlt_weak (a b c : Q) : ~ (a < b)%Q -> (a < c)%Q -> (b < c)%Q.
Proof. intros. lra. Qed.

Lemma Qltb_lt (a b : Q) : Py.ltb a b = true <-> (a < b)%Q.
Proof. symmetry. apply reflect_iff, ltb_spec. Qed.

Lemma count_pos_elem emotions e : (0 < count emotions e)%nat -> e ∈ emotions.
Proof.
  unfold count. induction emotions as [|x l IH]; simpl; [lia |].
  destruct (String.eqb_spec e x) as [-> | Hne]; [set_solver |].
  intros H. apply elem_of_cons. right. by apply IH.
Qed.

Lemma sampled_length (frames : list Detection) :
  length (sampled frames) = ((length frames + 9) / 10)%nat.
Proof. by destruct (read_step_spec frames) as (_ & Hlen & _). Qed.

(** X28.  [detect_emotion_from_video] looks at frames 0, 10, 20, ... and
    at no other: the [k]-th emotion collected is that of frame [10 * k],
    so a video of [n] frames gives [ceil(n / 10)] of them. *)
Theorem every_tenth_frame_sampled (frames : list Detection) :
  length (sampled frames) = ((length frames + 9) / 10)%nat /\
  forall k, sampled frames !! k =
            detect_emotion_from_image <$> frames !! (10 * k)%nat.
Proof.
  destruct (read_step_spec frames) as (_ & Hlen & Hlook). by split.
Qed.

(** X29.  On a video with at least one frame, whatever the order in which
    the set of collected emotions is iterated, the emotion returned was
    collected from a sampled frame and no emotion was collected more often
    than it. *)
Theorem video_emotion_is_most_frequent set_order (frames : list Detection) :
  (forall e, e ∈ set_order (sampled frames) <-> e ∈ sampled frames) ->
  frames <> [] ->
  exists e,
    detect_emotion_from_video set_order frames = Some e /\
    e ∈ sampled frames /\
    forall e', (count (sampled frames) e' <= count (sampled frames) e)%nat.
Proof.
  intros Horder Hframes. unfold detect_emotion_from_video.
  pose proof (sampled_length frames) as Hlen.
  destruct (sampled frames) as [|e0 rest] eqn:Hs.
  { destruct frames as [|fr rest]; [done |]. cbn [length] in Hlen.
    pose proof (Nat.div_mod_eq (S (length rest) + 9) 10).
    pose proof (Nat.mod_upper_bound (S (length rest) + 9) 10). lia. }
  set (emotions := e0 :: rest) in *.
  pose proof (max_by_first_max Nat.ltb lt (count emotions)
                Nat.ltb_lt Nat.lt_trans nat_lt_weak (set_order emotions)) as Hmax.
  destruct (max_by Nat.ltb (count emotions) (set_order emotions)) as [e|].
  - exists e. split; [done |]. split.
    + apply Horder. by eapply first_max_elem.
    + intros e'. destruct (Nat.eq_dec (count emotions e') 0%nat) as [-> | Hpos]; [lia |].
      assert (He' : e' ∈ set_order emotions).
      { apply Horder, count_pos_elem. lia. }
      pose proof (first_max_largest lt (count emotions) _ _ e'
                    nat_lt_asym Hmax He'). lia.
  - assert (e0 ∈ set_order emotions) as Hin.
    { apply Horder, elem_of_cons. by left. }
    rewrite Hmax in Hin. by apply elem_of_nil in Hin.
Qed.

Lemma video_emotion_is_most_frequent_witness :
  let happy := Some [[("angry", 1 # 10); ("happy", 8 # 10)]%Q]%string in
  let sad := Some [[("sad", 9 # 10); ("happy", 1 # 10)]%Q]%string in
  let frames := [sad] ++ replicate 9 None ++ [happy] ++ replicate 9 sad ++ [happy] in
  exists e,
    detect_emotion_from_video (List.nodup string_dec) frames = Some e /\
    e ∈ sampled frames /\
    forall e', (count (sampled frames) e' <= count (sampled frames) e)%nat.
Proof.
  intros happy sad frames.
  apply (video_emotion_is_most_frequent (List.nodup string_dec) frames).
  - intros e. rewrite !list_elem_of_In. apply List.nodup_In.
  - discriminate.
Defined.

(** X30.  When the detector finds a face, [detect_emotion_from_image]
    returns the emotion of the highest score of the first face, and of
    equal highest scores the one that comes first in the dict; the other
    faces play no part. *)
Theorem dominant_emotion_first_highest (face : list (string * Q))
    (others : list (list (string * Q))) :
  face <> [] ->
  exists score,
    first_max Qlt snd face
      (detect_emotion_from_image (Some (face :: others)), score).
Proof.
  intros Hface. unfold detect_emotion_from_image.
  pose proof (max_by_first_max Py.ltb Qlt snd
                Qltb_lt Qlt_trans Qlt_weak face) as Hmax.
  destruct (max_by Py.ltb snd face) as [[e score]|]; [| done].
  by exists score.
Qed.

Lemma dominant_emotion_first_highest_witness :
  exists score,
    first_max Qlt snd [("angry", 1 # 10); ("happy", 4 # 10); ("sad", 4 # 10)]%Q%string
      (detect_emotion_from_image
         (Some [[("angry", 1 # 10); ("happy", 4 # 10); ("sad", 4 # 10)]%Q%string;
                [("fear", 1 # 1)]%Q%string]),
       score).
Proof.
  apply (dominant_emotion_first_highest
           [("angry", 1 # 10); ("happy", 4 # 10); ("sad", 4 # 10)]%Q%string
           [[("fear", 1 # 1)]%Q%string]).
  discriminate.
Defined.

End Processor.
